(** * flowUI2: the stream ingestion and reconciliation engine of OptionsFlowClient

    A shallow embedding of the WebSocket handlers of [OptionsFlowClient]
    (the component's [useState] cells, [connectWebSocket], the [useEffect]
    cleanup and [getMapping]) and the properties of the ledgers, of the live
    price enrichment and of the reconnection policy.

    JavaScript numbers are IEEE 754 binary64: they are Rocq's primitive
    floats.  Plain objects are finite maps from property names to values. *)

From Stdlib Require Import Floats.PrimFloat Floats.SpecFloat Floats.FloatOps.
From Stdlib Require Import DecimalString.
From Stdlib Require Import Floats.FloatAxioms.
From stdpp Require Import gmap strings list fin_maps.

Set Warnings "-register-all,-inexact-float".


(** ** JavaScript values *)

(** What [JSON.parse] builds, [undefined], and the members a plain object
    inherits from [Object.prototype] ([VInherited "toString"] is the builtin
    the name [toString] resolves to on any plain object). *)
Inductive value :=
| VUndefined
| VNull
| VBool (b : bool)
| VNumber (f : float)
| VString (s : string)
| VArray (items : list value)
| VObject (props : gmap string value)
| VInherited (name : string).

Abbreviation object := (gmap string value).

(** Exceptions the handlers can raise. *)
Inductive error := SyntaxError | TypeError.

Inductive completion (A : Type) :=
| Normal (a : A)
| Throw (e : error).
Arguments Normal {A} a.
Arguments Throw {A} e.

(** The own and inherited property names of [Object.prototype] (ECMA-262
    20.1.3 and Annex B.2.2). *)
Definition Object_prototype : list string :=
  [ "constructor"; "hasOwnProperty"; "isPrototypeOf"; "propertyIsEnumerable";
    "toLocaleString"; "toString"; "valueOf"; "__proto__";
    "__defineGetter__"; "__defineSetter__"; "__lookupGetter__";
    "__lookupSetter__" ].

Definition inherited (k : string) : bool :=
  existsb (String.eqb k) Object_prototype.

(** [o[k]] and [o.k] on a plain object: the own property, else the member
    inherited from [Object.prototype], else [undefined]. *)
Definition get (o : object) (k : string) : value :=
  match o !! k with
  | Some v => v
  | None => if inherited k then VInherited k else VUndefined
  end.

(** [ToBoolean]: the truthiness test of [if], [? :] and [||]. *)
Definition ToBoolean (v : value) : bool :=
  match v with
  | VUndefined | VNull => false
  | VBool b => b
  | VNumber f => negb (PrimFloat.is_zero f || PrimFloat.is_nan f)
  | VString s => negb (String.eqb s "")
  | VArray _ | VObject _ | VInherited _ => true
  end.

(** [a ?? b] *)
Definition nullish (a b : value) : value :=
  match a with
  | VUndefined | VNull => b
  | _ => a
  end.

(** [a || b] *)
Definition or_else (a b : value) : value :=
  if ToBoolean a then a else b.

(** [a === b] between a value held in the state and a value of the message
    being handled.  Numbers compare as IEEE doubles ([NaN] differs from
    itself, the two zeros are equal).  Arrays and objects compare by
    identity: every [JSON.parse] builds fresh ones, so an object of the
    current message is never identical to one stored from an earlier
    message, while a builtin is identical to itself. *)
Definition strict_equals (a b : value) : bool :=
  match a, b with
  | VUndefined, VUndefined => true
  | VNull, VNull => true
  | VBool x, VBool y => Bool.eqb x y
  | VNumber x, VNumber y => PrimFloat.eqb x y
  | VString x, VString y => String.eqb x y
  | VInherited x, VInherited y => String.eqb x y
  | _, _ => false
  end.

(** [xs.join(",")] on strings. *)
Fixpoint join_comma (xs : list string) : string :=
  match xs with
  | [] => ""
  | [x] => x
  | x :: rest => x +:+ "," +:+ join_comma rest
  end.

(** The two conversions between numbers and strings that the engine leaves
    to the JavaScript host: [Number::toString] (ECMA-262 6.1.6.1.20) and
    [StringToNumber] (7.1.4.1.1).  The handlers reach them only through a
    computed property key and through arithmetic on a string. *)
Class Host := {
  NumberToString : float -> string;
  StringToNumber : string -> float
}.

Section Engine.

Context `{Host}.

(** [ToString], for the values above.  An object built by [JSON.parse]
    has no callable member, so a payload object that shadows [toString] (on
    which the conversion would raise) is outside this model. *)
Fixpoint ToString (v : value) : string :=
  match v with
  | VUndefined => "undefined"
  | VNull => "null"
  | VBool true => "true"
  | VBool false => "false"
  | VNumber f => NumberToString f
  | VString s => s
  | VArray items =>
      join_comma
        (List.map (fun e => match e with
                            | VUndefined | VNull => ""
                            | _ => ToString e
                            end) items)
  | VObject _ => "[object Object]"
  | VInherited "__proto__" => "[object Object]"
  | VInherited name => "function " +:+ name +:+ "() { [native code] }"
  end.

(** The key of a computed member access [o[v]] or [{[v]: ...}]. *)
Definition ToPropertyKey (v : value) : string := ToString v.

(** [ToNumber] *)
Definition ToNumber (v : value) : float :=
  match v with
  | VUndefined => PrimFloat.nan
  | VNull => 0%float
  | VBool true => 1%float
  | VBool false => 0%float
  | VNumber f => f
  | VString s => StringToNumber s
  | VArray _ | VObject _ | VInherited _ => StringToNumber (ToString v)
  end.

(** [a - b], [a / b], [a * b] *)
Definition js_sub (a b : value) : value :=
  VNumber (PrimFloat.sub (ToNumber a) (ToNumber b)).
Definition js_div (a b : value) : value :=
  VNumber (PrimFloat.div (ToNumber a) (ToNumber b)).
Definition js_mul (a b : value) : value :=
  VNumber (PrimFloat.mul (ToNumber a) (ToNumber b)).

(** ** Session state: the component's [useState] cells *)

Record Session := {
  connected : bool;
  trades : list object;
  prints : list object;
  quotes : object;
  ulQuotes : object;
  conidMapping : object;
  stats : value;
  autoTrades : list object
}.

(** [useState(false)], [useState([])], [useState({})], [useState(null)] *)
Definition initial_session : Session :=
  {| connected := false; trades := []; prints := []; quotes := ∅;
     ulQuotes := ∅; conidMapping := ∅; stats := VNull; autoTrades := [] |}.

Definition setConnected (b : bool) (s : Session) : Session :=
  {| connected := b; trades := trades s; prints := prints s;
     quotes := quotes s; ulQuotes := ulQuotes s;
     conidMapping := conidMapping s; stats := stats s;
     autoTrades := autoTrades s |}.

Definition setTrades (f : list object -> list object) (s : Session) : Session :=
  {| connected := connected s; trades := f (trades s); prints := prints s;
     quotes := quotes s; ulQuotes := ulQuotes s;
     conidMapping := conidMapping s; stats := stats s;
     autoTrades := autoTrades s |}.

Definition setPrints (f : list object -> list object) (s : Session) : Session :=
  {| connected := connected s; trades := trades s; prints := f (prints s);
     quotes := quotes s; ulQuotes := ulQuotes s;
     conidMapping := conidMapping s; stats := stats s;
     autoTrades := autoTrades s |}.

Definition setQuotes (f : object -> object) (s : Session) : Session :=
  {| connected := connected s; trades := trades s; prints := prints s;
     quotes := f (quotes s); ulQuotes := ulQuotes s;
     conidMapping := conidMapping s; stats := stats s;
     autoTrades := autoTrades s |}.

Definition setUlQuotes (f : object -> object) (s : Session) : Session :=
  {| connected := connected s; trades := trades s; prints := prints s;
     quotes := quotes s; ulQuotes := f (ulQuotes s);
     conidMapping := conidMapping s; stats := stats s;
     autoTrades := autoTrades s |}.

Definition setConidMapping (f : object -> object) (s : Session) : Session :=
  {| connected := connected s; trades := trades s; prints := prints s;
     quotes := quotes s; ulQuotes := ulQuotes s;
     conidMapping := f (conidMapping s); stats := stats s;
     autoTrades := autoTrades s |}.

Definition setStats (v : value) (s : Session) : Session :=
  {| connected := connected s; trades := trades s; prints := prints s;
     quotes := quotes s; ulQuotes := ulQuotes s;
     conidMapping := conidMapping s; stats := v;
     autoTrades := autoTrades s |}.

Definition setAutoTrades (f : list object -> list object) (s : Session) : Session :=
  {| connected := connected s; trades := trades s; prints := prints s;
     quotes := quotes s; ulQuotes := ulQuotes s;
     conidMapping := conidMapping s; stats := stats s;
     autoTrades := f (autoTrades s) |}.

(** ** The message handler *)

(** [[record, ...prev].slice(0, N)] *)
Definition push {A : Type} (N : nat) (record : A) (prev : list A) : list A :=
  take N (record :: prev).

(** The object literal of the CALL/PUT case: the spread of [data], then the
    five properties written after it. *)
Definition enriched (now : float) (data : object) : object :=
  <["priceChangePct" := VNumber 0%float]>
    (<["priceChange" := VNumber 0%float]>
      (<["currentPrice" := get data "optionPrice"]>
        (<["initialPrice" := get data "optionPrice"]>
          (<["receivedAt" := VNumber now]> data)))).

(** The callback mapped over a ledger in the LIVE_QUOTE case. *)
Definition reprice (data : object) (t : object) : object :=
  if negb (strict_equals (get t "conid") (get data "conid")) then t
  else
    let last :=
      nullish (get data "last")
              (nullish (get t "currentPrice") (get t "optionPrice")) in
    let priceChange := js_sub last (get t "initialPrice") in
    let priceChangePct :=
      if ToBoolean (get t "initialPrice")
      then js_mul (js_div priceChange (get t "initialPrice")) (VNumber 100%float)
      else VNumber 0%float in
    <["priceChangePct" := priceChangePct]>
      (<["priceChange" := priceChange]>
        (<["currentPrice" := last]> t)).

(** A [case] label of [switch (data.type)]: the discriminant is compared
    with the label by [===]. *)
Definition case_label (discriminant : value) (label : string) : bool :=
  strict_equals discriminant (VString label).

(** The [switch (data.type)] of [ws.onmessage], for [data] a plain object.
    [now] is what [Date.now()] returns during the call. *)
Definition dispatch (now : float) (data : object) (s : Session) : Session :=
  let type := get data "type" in
  if case_label type "CONID_MAPPING" then
    setConidMapping
      (fun prev => <[ToPropertyKey (get data "conid") := get data "mapping"]> prev) s
  else if case_label type "CALL" || case_label type "PUT" then
    let e := enriched now data in
    let s1 := setTrades (fun prev => push 200 e prev) s in
    if ToBoolean (get data "isAutoTrade")
    then setAutoTrades (fun prev => push 50 e prev) s1
    else s1
  else if case_label type "PRINT" then
    setPrints (fun prev => push 200 data prev) s
  else if case_label type "LIVE_QUOTE" then
    let s1 :=
      setQuotes (fun prev => <[ToPropertyKey (get data "conid") := VObject data]> prev) s in
    let s2 := setTrades (fun prev => reprice data <$> prev) s1 in
    setAutoTrades (fun prev => reprice data <$> prev) s2
  else if case_label type "UL_LIVE_QUOTE" then
    setUlQuotes
      (fun prev => <[ToPropertyKey (get data "conid") := VObject data]> prev) s
  else if case_label type "TRADING_STATS" then
    setStats (get data "stats") s
  else s.

(** What arrives in [event.data]: text that [JSON.parse] rejects, or the
    text of a JSON document, given by the value [JSON.parse] builds from
    it. *)
Inductive payload :=
| Malformed (text : string)
| Document (json : value).

Definition JSON_parse (p : payload) : completion value :=
  match p with
  | Malformed _ => Throw SyntaxError
  | Document json => Normal json
  end.

(** [ws.onmessage].  Reading [data.type] raises a [TypeError] when the
    document is [null]; a boolean, a number, a string or an array has no
    member [type], and the [switch] takes its [default] arm.  Every state
    update follows the last point where the handler can raise, so a raising
    call has made none. *)
Definition onmessage (now : float) (event_data : payload) (s : Session)
  : completion Session :=
  match JSON_parse event_data with
  | Throw e => Throw e
  | Normal data =>
      match data with
      | VUndefined | VNull => Throw TypeError
      | VObject d => Normal (dispatch now d s)
      | VBool _ | VNumber _ | VString _ | VArray _ | VInherited _ => Normal s
      end
  end.

(** One turn of the browser's event loop for a [message] event: the handler
    runs to completion; an exception that escapes it is reported by the host
    and the loop goes on with the state as the handler left it. *)
Definition deliver (now : float) (event_data : payload) (s : Session) : Session :=
  match onmessage now event_data s with
  | Normal s' => s'
  | Throw _ => s
  end.

(** The states after each message of a sequence, first to last. *)
Fixpoint states_after (msgs : list (float * payload)) (s : Session) : list Session :=
  match msgs with
  | [] => []
  | (now, p) :: rest => deliver now p s :: states_after rest (deliver now p s)
  end.

(** The state after a whole sequence of messages. *)
Definition process (msgs : list (float * payload)) (s : Session) : Session :=
  fold_left (fun st m => deliver (fst m) (snd m) st) msgs s.

(** [getMapping] *)
Definition getMapping (s : Session) (conid : value) : value :=
  or_else (get (conidMapping s) (ToPropertyKey conid))
          (VObject (<["type" := VString "OPT"]> (<["symbol" := VString "Unknown"]> ∅))).

(** ** The connection manager *)

(** [WebSocket.readyState] *)
Inductive readyState := CONNECTING | OPEN | CLOSING | CLOSED.

(** The one function the component ever hands to [setTimeout]. *)
Inductive callback := Reconnect.

(** A pending timeout: [setTimeout(handler, timeout)], in milliseconds. *)
Record timer := { handler : callback; timeout : Z }.

(** The component instance and what it has created in the browser: its
    state cells, every [WebSocket] it has constructed (a socket is named by
    its position in [sockets]), the [wsRef] cell, the timeouts that have not
    fired yet and the frames handed to [ws.send].  Sockets and timeouts
    outlive the component; once it is unmounted React no longer renders its
    state, and the updates the handlers still make to [session] are seen by
    nobody. *)
Record World := {
  session : Session;
  mounted : bool;
  sockets : list readyState;
  wsRef : option nat;
  timers : list timer;
  sent : list (nat * value)
}.

(** Before the first render: [useRef(null)], no socket, no timeout. *)
Definition initial_world : World :=
  {| session := initial_session; mounted := false; sockets := [];
     wsRef := None; timers := []; sent := [] |}.

Definition with_session (f : Session -> Session) (w : World) : World :=
  {| session := f (session w); mounted := mounted w; sockets := sockets w;
     wsRef := wsRef w; timers := timers w; sent := sent w |}.

Definition with_mounted (b : bool) (w : World) : World :=
  {| session := session w; mounted := b; sockets := sockets w;
     wsRef := wsRef w; timers := timers w; sent := sent w |}.

Definition with_sockets (f : list readyState -> list readyState) (w : World) : World :=
  {| session := session w; mounted := mounted w; sockets := f (sockets w);
     wsRef := wsRef w; timers := timers w; sent := sent w |}.

Definition with_timers (f : list timer -> list timer) (w : World) : World :=
  {| session := session w; mounted := mounted w; sockets := sockets w;
     wsRef := wsRef w; timers := f (timers w); sent := sent w |}.

(** The argument of [JSON.stringify] in [ws.onopen]. *)
Definition subscribe : value :=
  VObject (<["equitySymbols" :=
               VArray [VString "SPY"; VString "QQQ"; VString "AAPL"; VString "TSLA"]]>
          (<["futuresSymbols" := VArray [VString "/ES"; VString "/NQ"]]>
          (<["action" := VString "subscribe"]> ∅))).

(** [connectWebSocket]: [new WebSocket(WS_URL)] starts a connection attempt;
    the four handlers are attached to it and [wsRef.current] is set to it. *)
Definition connectWebSocket (w : World) : World :=
  {| session := session w; mounted := mounted w;
     sockets := sockets w ++ [CONNECTING];
     wsRef := Some (length (sockets w));
     timers := timers w; sent := sent w |}.

(** [ws.onopen] of socket [ws] *)
Definition onopen (ws : nat) (w : World) : World :=
  {| session := setConnected true (session w); mounted := mounted w;
     sockets := sockets w; wsRef := wsRef w; timers := timers w;
     sent := sent w ++ [(ws, subscribe)] |}.

(** [ws.onclose] *)
Definition onclose (w : World) : World :=
  with_timers (fun pending => pending ++ [{| handler := Reconnect; timeout := 3000 |}])
    (with_session (setConnected false) w).

(** [ws.onerror] *)
Definition onerror (w : World) : World :=
  with_session (setConnected false) w.

(** [WebSocket.prototype.close()]: a socket that is connecting or open starts
    closing; on a socket that is closing or closed the call does nothing.
    The [close] event, and with it [ws.onclose], comes later from the
    browser. *)
Definition closing (r : readyState) : readyState :=
  match r with
  | CONNECTING | OPEN => CLOSING
  | CLOSING | CLOSED => r
  end.

Definition WebSocket_close (ws : nat) (w : World) : World :=
  with_sockets (alter closing ws) w.

(** The function returned by the [useEffect] callback. *)
Definition cleanup (w : World) : World :=
  match wsRef w with
  | Some ws => WebSocket_close ws w
  | None => w
  end.

(** Running a timeout's handler. *)
Definition run_callback (c : callback) (w : World) : World :=
  match c with
  | Reconnect => connectWebSocket w
  end.

(** What the browser and React can do to the component.  [Mount] after
    [Unmount] is React's second run of the effect under [StrictMode] (which
    src/main.jsx renders the component in): state cells and refs are
    kept. *)
Inductive event :=
| Mount
| Unmount
| SocketOpen (ws : nat)
| SocketMessage (ws : nat) (now : float) (event_data : payload)
| SocketError (ws : nat)
| SocketClose (ws : nat)
| TimerFires (k : nat).

(** One turn of the event loop; [None] when the event cannot happen in [w]:
    the effect runs on mount and its cleanup on unmount; a socket opens once,
    from CONNECTING; messages come from an OPEN socket; a socket that is not
    yet CLOSED (its [close] event has not been delivered) can fail and can
    close; a pending timeout fires once. *)
Definition step (e : event) (w : World) : option World :=
  match e with
  | Mount =>
      if mounted w then None
      else Some (connectWebSocket (with_mounted true w))
  | Unmount =>
      if mounted w then Some (cleanup (with_mounted false w))
      else None
  | SocketOpen ws =>
      match sockets w !! ws with
      | Some CONNECTING => Some (onopen ws (with_sockets (<[ws := OPEN]>) w))
      | _ => None
      end
  | SocketMessage ws now event_data =>
      match sockets w !! ws with
      | Some OPEN => Some (with_session (deliver now event_data) w)
      | _ => None
      end
  | SocketError ws =>
      match sockets w !! ws with
      | Some CONNECTING | Some OPEN | Some CLOSING => Some (onerror w)
      | _ => None
      end
  | SocketClose ws =>
      match sockets w !! ws with
      | Some CONNECTING | Some OPEN | Some CLOSING =>
          Some (onclose (with_sockets (<[ws := CLOSED]>) w))
      | _ => None
      end
  | TimerFires k =>
      match timers w !! k with
      | Some t => Some (run_callback (handler t) (with_timers (delete k) w))
      | None => None
      end
  end.

(** A sequence of events, each from the state the previous one left. *)
Fixpoint run (es : list event) (w : World) : option World :=
  match es with
  | [] => Some w
  | e :: rest =>
      match step e w with
      | Some w' => run rest w'
      | None => None
      end
  end.

End Engine.

(** ** A host for concrete runs *)

(** The integer a double denotes, when it denotes one. *)
Definition integral (f : float) : option Z :=
  match Prim2SF f with
  | S754_zero _ => Some 0%Z
  | S754_finite negative m e =>
      let magnitude :=
        if (0 <=? e)%Z then Some (Z.pos m * 2 ^ e)%Z
        else if (Z.pos m mod 2 ^ (- e) =? 0)%Z then Some (Z.pos m / 2 ^ (- e))%Z
        else None in
      (fun z => if negative then (- z)%Z else z) <$> magnitude
  | S754_infinity _ | S754_nan => None
  end.

(** [Number::toString] where it is a plain numeral: on the integers of
    magnitude up to 2^53 (each is a double, so its shortest decimal form
    that reads back as the same double is its own numeral), on the
    infinities and on [NaN].  The shortest decimal expansion of the other
    doubles is not computed: they are mapped to the empty string, and the
    runs below use none as a property key. *)
Definition integer_NumberToString (f : float) : string :=
  match integral f with
  | Some z =>
      if (Z.abs z <=? 2 ^ 53)%Z then NilZero.string_of_int (Z.to_int z) else ""
  | None =>
      if PrimFloat.is_nan f then "NaN"
      else if PrimFloat.eqb f PrimFloat.infinity then "Infinity"
      else if PrimFloat.eqb f PrimFloat.neg_infinity then "-Infinity"
      else ""
  end.

(** A host for feeds that send their ids as integers and their prices as
    JSON numbers: no string is ever converted to a number on such a feed, and
    [StringToNumber] is fixed to the value it has on text that is not a
    numeral. *)
#[global] Instance integer_host : Host :=
  {| NumberToString := integer_NumberToString;
     StringToNumber := fun _ => PrimFloat.nan |}.

(** ** Sample messages *)

(** [{"type":"CALL","conid":100,"optionPrice":1.5,"size":10}] *)
Definition call_100 : object :=
  <["size" := VNumber 10]>
    (<["optionPrice" := VNumber 1.5]>
      (<["conid" := VNumber 100]>
        (<["type" := VString "CALL"]> ∅))).

(** [{"type":"LIVE_QUOTE","conid":100,"last":2}] *)
Definition quote_100 : object :=
  <["last" := VNumber 2]>
    (<["conid" := VNumber 100]>
      (<["type" := VString "LIVE_QUOTE"]> ∅)).

(** [{"type":"PRINT","conid":100,"tradeSize":n}] *)
Definition print_n (n : float) : object :=
  <["tradeSize" := VNumber n]>
    (<["conid" := VNumber 100]>
      (<["type" := VString "PRINT"]> ∅)).

(** [call_100] flagged as an auto-trade. *)
Definition auto_call_100 : object := <["isAutoTrade" := VBool true]> call_100.

(** The session after [call_100] arrived at time 1. *)
Definition session_with_call `{Host} : Session :=
  deliver 1 (Document (VObject call_100)) initial_session.

(** A mounted component whose first socket is open. *)
Definition open_world : World :=
  {| session := setConnected true initial_session; mounted := true;
     sockets := [OPEN]; wsRef := Some 0; timers := [];
     sent := [(0, subscribe)] |}.

(** [n] PRINT events, numbered from [k] in their [tradeSize] and arriving
    at times [k], [k + 1], ... *)
Fixpoint print_feed (n : nat) (k : float) : list (float * payload) :=
  match n with
  | 0 => []
  | S m => (k, Document (VObject (print_n k))) :: print_feed m (PrimFloat.add k 1)
  end.



(** The capacity bound of the three ledgers. *)
Definition bounded (s : Session) : Prop :=
  length (trades s) ≤ 200 ∧ length (prints s) ≤ 200 ∧ length (autoTrades s) ≤ 50.

(** The price a LIVE_QUOTE event brings to a record: its [last], else the
    record's current price, else the record's entry option price. *)
Definition quoted_price (data t : object) : value :=
  nullish (get data "last") (nullish (get t "currentPrice") (get t "optionPrice")).

(** The three fields the enrichment leaves on a record [t'] that was [t]
    before a quote of price [L]: [L] itself, [L - initialPrice], and that
    difference as a percentage of [initialPrice], or 0 when [initialPrice]
    is falsy. *)
Definition repriced_to `{Host} (L : value) (t t' : object) : Prop :=
  get t' "currentPrice" = L
  ∧ get t' "priceChange" =
      VNumber (PrimFloat.sub (ToNumber L) (ToNumber (get t "initialPrice")))
  ∧ get t' "priceChangePct" =
      (if ToBoolean (get t "initialPrice")
       then VNumber
              (PrimFloat.mul
                 (PrimFloat.div
                    (PrimFloat.sub (ToNumber L) (ToNumber (get t "initialPrice")))
                    (ToNumber (get t "initialPrice")))
                 100)
       else VNumber 0).

(** The fields a quote may write. *)
Definition price_field (k : string) : Prop :=
  k = "currentPrice" ∨ k = "priceChange" ∨ k = "priceChangePct".

(** The placeholder of [getMapping], as the function writes it. *)
Definition unknown_mapping : value :=
  VObject (<["type" := VString "OPT"]> (<["symbol" := VString "Unknown"]> ∅)).

(** The placeholder as the specification words it:
    [{symbol: "Unknown", instrumentClass: "OPTION"}]. *)
Definition specified_placeholder : value :=
  VObject (<["instrumentClass" := VString "OPTION"]>
            (<["symbol" := VString "Unknown"]> ∅)).



(** ** Helpers and derived data of the component *)




(** [streamCount], [printCount], [autoCount] and [quoteCount]:
    [Object.keys] of a plain object lists its own properties. *)
Definition streamCount (s : Session) : nat := length (trades s).
Definition printCount (s : Session) : nat := length (prints s).
Definition autoCount (s : Session) : nat := length (autoTrades s).
Definition quoteCount (s : Session) : nat := size (quotes s) + size (ulQuotes s).

(** The [type] a payload presents to the [switch]; nothing when the payload
    is not a JSON object. *)
Definition type_of (p : payload) : value :=
  match p with
  | Document (VObject d) => get d "type"
  | _ => VUndefined
  end.

(** The [case] labels of the [switch]. *)
Definition message_types : list string :=
  [ "CONID_MAPPING"; "CALL"; "PUT"; "PRINT"; "LIVE_QUOTE"; "UL_LIVE_QUOTE";
    "TRADING_STATS" ].

(** The PRINT events of a sequence of messages, in arrival order. *)
Definition arrived_print (m : float * payload) : option object :=
  match snd m with
  | Document (VObject d) =>
      if case_label (get d "type") "PRINT" then Some d else None
  | _ => None
  end.

Definition arrived_prints (msgs : list (float * payload)) : list object :=
  omap arrived_print msgs.

(** [null] and [undefined]: what [??] skips. *)
Definition is_nullish (v : value) : bool :=
  match v with
  | VUndefined | VNull => true
  | _ => false
  end.

(** What holds of every record of the trade and auto-trade ledgers: it came
    from a CALL or PUT event, it was stamped on arrival, its [initialPrice]
    is its entry [optionPrice], its current price is known whenever its entry
    price is, and its price changes are the 0s it was created with (and its
    current price the entry price) or the ones of a quote at its current
    price. *)
Definition trade_record `{Host} (t : object) : Prop :=
  case_label (get t "type") "CALL" || case_label (get t "type") "PUT" = true
  ∧ (∃ at_, get t "receivedAt" = VNumber at_)
  ∧ get t "initialPrice" = get t "optionPrice"
  ∧ (is_nullish (get t "optionPrice") = false →
     is_nullish (get t "currentPrice") = false)
  ∧ ((get t "currentPrice" = get t "optionPrice"
      ∧ get t "priceChange" = VNumber 0
      ∧ get t "priceChangePct" = VNumber 0)
     ∨ repriced_to (get t "currentPrice") t t).

(** The invariant of the three ledgers. *)
Definition ledgers_well_formed `{Host} (s : Session) : Prop :=
  (∀ t, t ∈ trades s → trade_record t)
  ∧ (∀ t, t ∈ autoTrades s →
          trade_record t ∧ ToBoolean (get t "isAutoTrade") = true)
  ∧ (∀ d, d ∈ prints s → case_label (get d "type") "PRINT" = true).


(** Counters over a run of the connection manager: the mounts in a
    sequence of events, the sockets that have closed, and the frames sent on
    a socket. *)
Definition is_mount (e : event) : bool :=
  match e with
  | Mount => true
  | _ => false
  end.

Definition mounts (es : list event) : nat := length (List.filter is_mount es).

Definition is_closed (r : readyState) : bool :=
  match r with
  | CLOSED => true
  | _ => false
  end.

Definition closed_count (w : World) : nat :=
  length (List.filter is_closed (sockets w)).

Definition frames_on (ws : nat) (w : World) : list (nat * value) :=
  List.filter (λ frame, Nat.eqb (fst frame) ws) (sent w).

(** [wsRef] holds the socket created last, if any was created. *)
Definition newest (w : World) : Prop :=
  wsRef w = match sockets w with
            | [] => None
            | _ :: _ => Some (length (sockets w) - 1)
            end.

(** Every frame sent is the subscription, and a socket has sent none while
    it is connecting, exactly one while it is open and at most one ever. *)
Definition handshakes_ok (w : World) : Prop :=
  (∀ frame, frame ∈ sent w → snd frame = subscribe)
  ∧ ∀ ws, match sockets w !! ws with
          | None | Some CONNECTING => frames_on ws w = []
          | Some OPEN => length (frames_on ws w) = 1
          | Some CLOSING | Some CLOSED => length (frames_on ws w) ≤ 1
          end.

(** ** The trade filter *)

(** [String.prototype.toUpperCase] follows the Unicode case mappings: it is
    left to the host. *)
Class CaseMapping := { toUpperCase : string -> string }.

(** [hay.includes(needle)] on strings: [needle] occurs in [hay]. *)
Fixpoint includes (hay needle : string) : bool :=
  String.prefix needle hay
  || match hay with
     | EmptyString => false
     | String _ rest => includes rest needle
     end.

(** The [filters] state cell.  The inputs that set it store strings, and a
    number for [minPremium]. *)
Record Filters := {
  symbol : string;
  minPremium : float;
  direction : string;
  classification : string;
  stance : string
}.

(** The argument of [useState] for [filters]. *)
Definition initial_filters : Filters :=
  {| symbol := ""; minPremium := 0; direction := "all";
     classification := "all"; stance := "all" |}.

(** The [onChange] handler of the premium input:
    [minPremium: Number(e.target.value) || 0]. *)
Definition set_minPremium `{Host} (text : string) (f : Filters) : Filters :=
  let number := ToNumber (VString text) in
  {| symbol := symbol f;
     minPremium := if ToBoolean (VNumber number) then number else 0;
     direction := direction f; classification := classification f;
     stance := stance f |}.

(** What a trade that is shown satisfies, one clause per filter that is
    set. *)
Definition meets `{Host} `{CaseMapping} (filters : Filters) (t : object) : Prop :=
  (symbol filters ≠ "" →
   ∃ str, get t "symbol" = VString str
          ∧ includes (toUpperCase str) (toUpperCase (symbol filters)) = true)
  ∧ (ToBoolean (VNumber (minPremium filters)) = true →
     PrimFloat.ltb (ToNumber (get t "premium")) (minPremium filters) = false)
  ∧ (direction filters ≠ "all" →
     get t "direction" = VString (direction filters))
  ∧ (classification filters ≠ "all" →
     (∃ items, get t "classifications" = VArray items
               ∧ VString (classification filters) ∈ items)
     ∨ (∃ str, get t "classifications" = VString str
               ∧ includes str (classification filters) = true))
  ∧ (stance filters ≠ "all" →
     get t "stanceLabel" = VString (stance filters)).


(** [trade.symbol?.toUpperCase().includes(filters.symbol.toUpperCase())]:
    [undefined] when the symbol is [null] or missing; a [TypeError] when it
    is neither that nor a string, for then [toUpperCase] is not a function.
    *)
Definition symbol_includes `{CaseMapping} (v : value) (wanted : string)
  : completion value :=
  match v with
  | VUndefined | VNull => Normal VUndefined
  | VString str => Normal (VBool (includes (toUpperCase str) (toUpperCase wanted)))
  | _ => Throw TypeError
  end.

(** [trade.classifications?.includes(filters.classification)]: membership
    in an array, occurrence in a string, [undefined] on [null] or a missing
    field, a [TypeError] on anything else. *)
Definition classifications_include (v : value) (wanted : string)
  : completion value :=
  match v with
  | VUndefined | VNull => Normal VUndefined
  | VArray items =>
      Normal (VBool (existsb (λ item, strict_equals item (VString wanted)) items))
  | VString str => Normal (VBool (includes str wanted))
  | _ => Throw TypeError
  end.

(** [a < b] for a number [b]: both sides as numbers, false on NaN. *)
Definition less_than `{Host} (a : value) (b : float) : bool :=
  PrimFloat.ltb (ToNumber a) b.

(** The callback of [trades.filter]. *)
Definition shown `{Host} `{CaseMapping} (filters : Filters) (trade : object)
  : completion bool :=
  match
    (if ToBoolean (VString (symbol filters))
     then symbol_includes (get trade "symbol") (symbol filters)
     else Normal (VBool true))
  with
  | Throw e => Throw e
  | Normal has_symbol =>
      if negb (ToBoolean has_symbol) then Normal false
      else if ToBoolean (VNumber (minPremium filters))
              && less_than (get trade "premium") (minPremium filters)
      then Normal false
      else if negb (String.eqb (direction filters) "all")
              && negb (strict_equals (get trade "direction")
                                     (VString (direction filters)))
      then Normal false
      else
        match
          (if negb (String.eqb (classification filters) "all")
           then classifications_include (get trade "classifications")
                                        (classification filters)
           else Normal (VBool true))
        with
        | Throw e => Throw e
        | Normal has_class =>
            if negb (ToBoolean has_class) then Normal false
            else if negb (String.eqb (stance filters) "all")
                    && negb (strict_equals (get trade "stanceLabel")
                                           (VString (stance filters)))
            then Normal false
            else Normal true
        end
  end.

(** [Array.prototype.filter] with a callback that can raise: the elements are
    visited in order and the first exception ends the call. *)
Fixpoint filter_array {A} (keep : A → completion bool) (l : list A)
  : completion (list A) :=
  match l with
  | [] => Normal []
  | x :: rest =>
      match keep x with
      | Throw e => Throw e
      | Normal b =>
          match filter_array keep rest with
          | Throw e => Throw e
          | Normal kept => Normal (if b then x :: kept else kept)
          end
      end
  end.

(** [filteredTrades] *)
Definition filteredTrades `{Host} `{CaseMapping} (filters : Filters) (s : Session)
  : completion (list object) :=
  filter_array (shown filters) (trades s).

(** Upper case of the ASCII letters, which is what [toUpperCase] does on
    ASCII text. *)
Definition ascii_upper (c : Ascii.ascii) : Ascii.ascii :=
  let n := Ascii.nat_of_ascii c in
  if (97 <=? n)%nat && (n <=? 122)%nat then Ascii.ascii_of_nat (n - 32) else c.

Fixpoint ascii_toUpperCase (str : string) : string :=
  match str with
  | EmptyString => EmptyString
  | String c rest => String (ascii_upper c) (ascii_toUpperCase rest)
  end.

#[global] Instance ascii_case : CaseMapping := {| toUpperCase := ascii_toUpperCase |}.

(** The messages a sequence of events delivers, in order. *)
Definition message_of (e : event) : option (float * payload) :=
  match e with
  | SocketMessage _ now event_data => Some (now, event_data)
  | _ => None
  end.

Definition messages_of (es : list event) : list (float * payload) :=
  omap message_of es.

(** More sample messages and records. *)



(** [{"type":"TRADING_STATS","stats":{"totalTrades":n}}] *)
Definition stats_n (n : float) : object :=
  <["stats" := VObject (<["totalTrades" := VNumber n]> ∅)]>
    (<["type" := VString "TRADING_STATS"]> ∅).

(** [{"type":"HEARTBEAT"}] *)
Definition heartbeat : object := <["type" := VString "HEARTBEAT"]> ∅.

(** [{"type":"LIVE_QUOTE","conid":100}] *)
Definition quote_100_no_last : object :=
  <["conid" := VNumber 100]> (<["type" := VString "LIVE_QUOTE"]> ∅).

(** [{"type":"LIVE_QUOTE","conid":200,"last":3}] *)
Definition quote_200 : object :=
  <["last" := VNumber 3]>
    (<["conid" := VNumber 200]>
      (<["type" := VString "LIVE_QUOTE"]> ∅)).


(** A BTO trade in SPY, and a trade whose symbol is the number 5. *)
Definition spy_trade : object :=
  <["direction" := VString "BTO"]> (<["symbol" := VString "SPY"]> call_100).

Definition numbered_trade : object := <["symbol" := VNumber 5]> call_100.

Definition session_of (ledger : list object) : Session :=
  {| connected := true; trades := ledger; prints := []; quotes := ∅;
     ulQuotes := ∅; conidMapping := ∅; stats := VNull; autoTrades := [] |}.

(** The filters after choosing the direction BTO, and after typing "sp" in
    the symbol box. *)
Definition bto_only : Filters :=
  {| symbol := ""; minPremium := 0; direction := "BTO";
     classification := "all"; stance := "all" |}.


(** ** Properties *)

Section Properties.

Context {host : Host}.

Implicit Types (s : Session) (data t : object) (now : float).

(** *** Property reads on records *)

Lemma get_insert_eq (o : object) k v : get (<[k := v]> o) k = v.
Proof. unfold get. by rewrite lookup_insert_eq. Qed.

Lemma get_insert_ne (o : object) k k' v :
  k ≠ k' → get (<[k := v]> o) k' = get o k'.
Proof. intros Hne. unfold get. by rewrite lookup_insert_ne. Qed.

Lemma case_label_spec v label : case_label v label = true ↔ v = VString label.
Proof.
  unfold case_label. split.
  - destruct v; simpl; try discriminate.
    intros Heq. apply String.eqb_eq in Heq. by subst.
  - intros ->. simpl. apply String.eqb_refl.
Qed.

(** *** The cases of the switch *)

Lemma dispatch_CALL_PUT now data s :
  case_label (get data "type") "CALL" || case_label (get data "type") "PUT" = true →
  dispatch now data s =
    (if ToBoolean (get data "isAutoTrade")
     then setAutoTrades (push 50 (enriched now data))
            (setTrades (push 200 (enriched now data)) s)
     else setTrades (push 200 (enriched now data)) s).
Proof.
  intros Hty. unfold dispatch.
  apply orb_true_iff in Hty as [Hty | Hty];
    apply case_label_spec in Hty; rewrite Hty; reflexivity.
Qed.

Lemma dispatch_PRINT now data s :
  case_label (get data "type") "PRINT" = true →
  dispatch now data s = setPrints (push 200 data) s.
Proof.
  intros Hty. unfold dispatch.
  apply case_label_spec in Hty. rewrite Hty. reflexivity.
Qed.

Lemma dispatch_LIVE_QUOTE now data s :
  case_label (get data "type") "LIVE_QUOTE" = true →
  dispatch now data s =
    setAutoTrades (fmap (reprice data))
      (setTrades (fmap (reprice data))
        (setQuotes (<[ToPropertyKey (get data "conid") := VObject data]>) s)).
Proof.
  intros Hty. unfold dispatch.
  apply case_label_spec in Hty. rewrite Hty. reflexivity.
Qed.

(** *** Ledgers *)

Lemma push_length {A} N (x : A) l : length (push N x l) ≤ N.
Proof. unfold push. rewrite length_take. lia. Qed.

Lemma dispatch_bounded now data s : bounded s → bounded (dispatch now data s).
Proof.
  intros (Ht & Hp & Ha). unfold dispatch, bounded.
  repeat match goal with
         | |- context [if ?b then _ else _] => destruct b
         end; simpl; rewrite ?length_fmap;
    repeat split; first [assumption | rewrite ?length_take; lia].
Qed.

Lemma deliver_bounded now p s : bounded s → bounded (deliver now p s).
Proof.
  intros Hb. unfold deliver, onmessage.
  destruct p as [text | json]; simpl; [done |].
  destruct json; simpl; auto using dispatch_bounded.
Qed.

Lemma states_after_bounded msgs s :
  bounded s → Forall bounded (states_after msgs s).
Proof.
  revert s. induction msgs as [| [now p] rest IH]; intros s Hb; simpl.
  - constructor.
  - constructor; [| apply IH]; by apply deliver_bounded.
Qed.

Lemma onmessage_object now data s :
  onmessage now (Document (VObject data)) s = Normal (dispatch now data s).
Proof. reflexivity. Qed.

Lemma step_bounded e w w' :
  step e w = Some w' → bounded (session w) → bounded (session w').
Proof.
  intros Hstep Hb. destruct e; simpl in Hstep.
  - destruct (mounted w); by simplify_eq.
  - destruct (mounted w); simplify_eq. unfold cleanup. simpl.
    by destruct (wsRef w).
  - destruct (sockets w !! ws) as [[] |]; by simplify_eq.
  - destruct (sockets w !! ws) as [[] |]; simplify_eq. simpl.
    by apply deliver_bounded.
  - destruct (sockets w !! ws) as [[] |]; by simplify_eq.
  - destruct (sockets w !! ws) as [[] |]; by simplify_eq.
  - destruct (timers w !! k) as [[[] ?] |]; by simplify_eq.
Qed.

Lemma run_bounded es : ∀ w w',
  run es w = Some w' → bounded (session w) → bounded (session w').
Proof.
  induction es as [| e rest IH]; intros w w' Hrun Hb; simpl in Hrun.
  - by simplify_eq.
  - destruct (step e w) as [w1 |] eqn:Hstep; [| done].
    eauto using step_bounded.
Qed.

(** C1: whatever sequence of messages the handler processes from the
    component's initial state, after each message the trade ledger holds at
    most 200 records, the print ledger at most 200 and the auto-trade ledger
    at most 50. *)
Theorem ledgers_stay_bounded (msgs : list (float * payload)) :
  Forall bounded (states_after msgs initial_session)
  ∧ bounded (process msgs initial_session).
Proof.
  assert (Hinit : bounded initial_session) by (unfold bounded; simpl; lia).
  split; [by apply states_after_bounded |].
  unfold process. revert Hinit. generalize initial_session.
  induction msgs as [| [now p] rest IH]; intros s Hb; simpl; [done |].
  apply IH. by apply deliver_bounded.
Qed.

(** C6: a push puts the record at index 0 and keeps, behind it and in
    their order, the first N-1 records of the ledger; it is a total function.
    On a ledger with room nothing is lost, and on a ledger that already
    holds N records exactly the last (oldest) one goes.  The handler uses
    [push] with N = 200 for trades and prints and N = 50 for auto-trades
    ([dispatch_CALL_PUT], [dispatch_PRINT]). *)
Theorem push_prepends_and_evicts_oldest {A} (N : nat) (record : A) (prev : list A) :
  0 < N →
  push N record prev !! 0 = Some record
  ∧ push N record prev = record :: take (N - 1) prev
  ∧ length (push N record prev) = N `min` S (length prev)
  ∧ (length prev < N → push N record prev = record :: prev)
  ∧ (∀ kept oldest,
        prev = kept ++ [oldest] → length prev = N →
        push N record prev = record :: kept)
  ∧ (∀ now data s,
        case_label (get data "type") "PRINT" = true →
        prints (deliver now (Document (VObject data)) s)
        = push 200 data (prints s))
  ∧ (∀ now data s,
        case_label (get data "type") "CALL" || case_label (get data "type") "PUT" = true →
        trades (deliver now (Document (VObject data)) s)
        = push 200 (enriched now data) (trades s)
        ∧ (ToBoolean (get data "isAutoTrade") = true →
           autoTrades (deliver now (Document (VObject data)) s)
           = push 50 (enriched now data) (autoTrades s))).
Proof.
  intros HN. split_and!.
  - unfold push. by destruct N; [lia |].
  - unfold push. destruct N as [| n]; [lia |]. simpl. by rewrite Nat.sub_0_r.
  - unfold push. rewrite length_take. simpl. lia.
  - intros Hlt. unfold push. rewrite take_ge; [done | simpl; lia].
  - intros kept oldest -> Hlen. rewrite length_app in Hlen. simpl in Hlen.
    unfold push. destruct N as [| n]; [lia |]. simpl.
    rewrite take_app_le by lia. rewrite take_ge; [done | lia].
  - intros now data s Hty.
    change (deliver _ _ s) with (dispatch now data s).
    by rewrite (dispatch_PRINT _ _ _ Hty).
  - intros now data s Hty.
    change (deliver _ _ s) with (dispatch now data s).
    rewrite (dispatch_CALL_PUT _ _ _ Hty).
    split; [by destruct (ToBoolean _) | by intros ->].
Qed.

(** C7: the record a CALL or PUT event puts at the head of the trade ledger
    is the event with [initialPrice] and [currentPrice] set to its
    [optionPrice] and both price changes set to 0; the same record is pushed
    to the auto-trade ledger when [isAutoTrade] is truthy, and the auto-trade
    ledger is left as it was when it is not. *)
Theorem call_put_record_initialised now data s :
  case_label (get data "type") "CALL" || case_label (get data "type") "PUT" = true →
  let record := enriched now data in
  let s' := deliver now (Document (VObject data)) s in
  get record "initialPrice" = get data "optionPrice"
  ∧ get record "currentPrice" = get data "optionPrice"
  ∧ get record "priceChange" = VNumber 0
  ∧ get record "priceChangePct" = VNumber 0
  ∧ trades s' = push 200 record (trades s)
  ∧ trades s' !! 0 = Some record
  ∧ (ToBoolean (get data "isAutoTrade") = true →
       autoTrades s' = push 50 record (autoTrades s)
       ∧ autoTrades s' !! 0 = Some record)
  ∧ (ToBoolean (get data "isAutoTrade") = false →
       autoTrades s' = autoTrades s).
Proof.
  intros Hty record s'.
  assert (Hs' : s' = dispatch now data s) by reflexivity.
  rewrite (dispatch_CALL_PUT _ _ _ Hty) in Hs'. fold record in Hs'.
  assert (Htrades : trades s' = push 200 record (trades s)).
  { rewrite Hs'. by destruct (ToBoolean _). }
  split_and!.
  - unfold record, enriched.
    rewrite !get_insert_ne by done. apply get_insert_eq.
  - unfold record, enriched.
    rewrite !get_insert_ne by done. apply get_insert_eq.
  - unfold record, enriched.
    rewrite !get_insert_ne by done. apply get_insert_eq.
  - unfold record, enriched. apply get_insert_eq.
  - exact Htrades.
  - by rewrite Htrades.
  - intros Hflag. rewrite Hs', Hflag. by split.
  - intros Hflag. by rewrite Hs', Hflag.
Qed.

Lemma with_session_id (w : World) : with_session (λ x, x) w = w.
Proof. by destruct w. Qed.

Lemma process_app msgs1 msgs2 s :
  process (msgs1 ++ msgs2) s = process msgs2 (process msgs1 s).
Proof. unfold process. apply fold_left_app. Qed.

(** C3: on a payload that [JSON.parse] rejects the handler raises before
    any state update: the session, and with it the whole component, is
    exactly as before, and the messages that follow are processed as if the
    malformed one had never arrived.  The document [null], on which reading
    [data.type] raises, is dropped in the same way. *)
Theorem malformed_message_is_dropped text now s :
  onmessage now (Malformed text) s = Throw SyntaxError
  ∧ deliver now (Malformed text) s = s
  ∧ (∀ before after,
        process (before ++ (now, Malformed text) :: after) s
        = process (before ++ after) s)
  ∧ (∀ ws w,
        step (SocketMessage ws now (Malformed text)) w
        = match sockets w !! ws with
          | Some OPEN => Some w
          | _ => None
          end)
  ∧ (∀ ws w rest,
        run (SocketMessage ws now (Malformed text) :: rest) w
        = match sockets w !! ws with
          | Some OPEN => run rest w
          | _ => None
          end)
  ∧ onmessage now (Document VNull) s = Throw TypeError
  ∧ deliver now (Document VNull) s = s.
Proof.
  repeat split.
  - intros before after. by rewrite !process_app.
  - intros ws w. simpl. destruct (sockets w !! ws) as [[] |]; try done.
    f_equal. apply with_session_id.
  - intros ws w rest. simpl. destruct (sockets w !! ws) as [[] |]; try done.
    change (with_session _ w) with (with_session (λ x, x) w).
    by rewrite with_session_id.
Qed.

(** *** Enrichment *)

Ltac other_field := unfold price_field; intros [? | [? | ?]]; discriminate.

Lemma reprice_other data t :
  strict_equals (get t "conid") (get data "conid") = false →
  reprice data t = t.
Proof. intros Hne. unfold reprice. by rewrite Hne. Qed.

Lemma reprice_match data t :
  strict_equals (get t "conid") (get data "conid") = true →
  reprice data t =
    <["priceChangePct" :=
        if ToBoolean (get t "initialPrice")
        then js_mul (js_div (js_sub (quoted_price data t) (get t "initialPrice"))
                            (get t "initialPrice")) (VNumber 100)
        else VNumber 0]>
      (<["priceChange" := js_sub (quoted_price data t) (get t "initialPrice")]>
        (<["currentPrice" := quoted_price data t]> t)).
Proof. intros Heq. unfold reprice. by rewrite Heq. Qed.

Lemma reprice_frame data t k :
  ¬ price_field k → reprice data t !! k = t !! k.
Proof.
  intros Hk. unfold price_field in Hk.
  destruct (strict_equals (get t "conid") (get data "conid")) eqn:Hc.
  - rewrite (reprice_match _ _ Hc).
    rewrite !lookup_insert_ne; [done | intros <-; apply Hk; auto ..].
  - by rewrite (reprice_other _ _ Hc).
Qed.

Lemma reprice_get data t k :
  ¬ price_field k → get (reprice data t) k = get t k.
Proof. intros Hk. unfold get. by rewrite reprice_frame. Qed.

Lemma reprice_repriced data t :
  strict_equals (get t "conid") (get data "conid") = true →
  repriced_to (quoted_price data t) t (reprice data t).
Proof.
  intros Hc. rewrite (reprice_match _ _ Hc). unfold repriced_to.
  repeat split.
  - rewrite !get_insert_ne by done. apply get_insert_eq.
  - rewrite get_insert_ne by done. apply get_insert_eq.
  - rewrite get_insert_eq. by destruct (ToBoolean _).
Qed.

Lemma nullish_idem a b : nullish a (nullish (nullish a b) b) = nullish a b.
Proof. by destruct a, b. Qed.

Lemma quoted_price_stable data t :
  strict_equals (get t "conid") (get data "conid") = true →
  quoted_price data (reprice data t) = quoted_price data t.
Proof.
  intros Hc. unfold quoted_price at 1.
  rewrite (reprice_get data t "optionPrice") by other_field.
  rewrite (reprice_match _ _ Hc).
  rewrite !get_insert_ne by done. rewrite get_insert_eq.
  unfold quoted_price.
  destruct (get data "last"); try done;
    by destruct (get t "currentPrice"), (get t "optionPrice").
Qed.

Lemma reprice_idempotent data t :
  reprice data (reprice data t) = reprice data t.
Proof.
  destruct (strict_equals (get t "conid") (get data "conid")) eqn:Hc.
  - assert (Hc' : strict_equals (get (reprice data t) "conid") (get data "conid") = true).
    { rewrite reprice_get; [done | other_field]. }
    rewrite (reprice_match _ _ Hc').
    rewrite (quoted_price_stable _ _ Hc).
    rewrite (reprice_get data t "initialPrice") by other_field.
    rewrite (reprice_match _ _ Hc).
    apply map_eq. intros k.
    destruct (decide (k = "priceChangePct")) as [-> | ?];
      [by rewrite !lookup_insert_eq |].
    rewrite !(lookup_insert_ne _ "priceChangePct") by done.
    destruct (decide (k = "priceChange")) as [-> | ?];
      [by rewrite !lookup_insert_eq |].
    rewrite !(lookup_insert_ne _ "priceChange") by done.
    destruct (decide (k = "currentPrice")) as [-> | ?];
      [by rewrite !lookup_insert_eq |].
    rewrite !(lookup_insert_ne _ "currentPrice") by done.
    rewrite !(lookup_insert_ne _ "priceChangePct") by done.
    rewrite !(lookup_insert_ne _ "priceChange") by done.
    by rewrite !(lookup_insert_ne _ "currentPrice") by done.
  - by rewrite !(reprice_other _ _ Hc).
Qed.

Lemma deliver_LIVE_QUOTE now data s :
  case_label (get data "type") "LIVE_QUOTE" = true →
  deliver now (Document (VObject data)) s =
    {| connected := connected s;
       trades := reprice data <$> trades s;
       prints := prints s;
       quotes := <[ToPropertyKey (get data "conid") := VObject data]> (quotes s);
       ulQuotes := ulQuotes s;
       conidMapping := conidMapping s;
       stats := stats s;
       autoTrades := reprice data <$> autoTrades s |}.
Proof.
  intros Hty. change (deliver _ _ s) with (dispatch now data s).
  by rewrite (dispatch_LIVE_QUOTE _ _ _ Hty).
Qed.







(** C9: a LIVE_QUOTE event leaves the print ledger as it was, keeps every
    record of the trade and auto-trade ledgers at its index (so lengths and
    order are kept), returns a record whose [conid] is not [===] to the
    quote's untouched, and on a matching record writes no field other than
    [currentPrice], [priceChange] and [priceChangePct]. *)
Theorem live_quote_frame now data s :
  case_label (get data "type") "LIVE_QUOTE" = true →
  let s' := deliver now (Document (VObject data)) s in
  prints s' = prints s
  ∧ length (trades s') = length (trades s)
  ∧ length (autoTrades s') = length (autoTrades s)
  ∧ (∀ i t, trades s !! i = Some t →
      ∃ t', trades s' !! i = Some t'
            ∧ (strict_equals (get t "conid") (get data "conid") = false → t' = t)
            ∧ (∀ k, ¬ price_field k → t' !! k = t !! k))
  ∧ (∀ i t, autoTrades s !! i = Some t →
      ∃ t', autoTrades s' !! i = Some t'
            ∧ (strict_equals (get t "conid") (get data "conid") = false → t' = t)
            ∧ (∀ k, ¬ price_field k → t' !! k = t !! k)).
Proof.
  intros Hty s'. unfold s'. rewrite (deliver_LIVE_QUOTE _ _ _ Hty). simpl.
  split; [done |]. rewrite !length_fmap. do 2 (split; [done |]).
  split; intros i t Hi; exists (reprice data t);
    (split; [by rewrite list_lookup_fmap, Hi |]);
    (split; [apply reprice_other | intros k; apply reprice_frame]).
Qed.

(** C10: processing the same LIVE_QUOTE event a second time changes nothing:
    the whole session, hence [currentPrice], [priceChange] and
    [priceChangePct] of every trade and auto-trade record, is as after the
    first time. *)
Theorem live_quote_idempotent now now' data s :
  case_label (get data "type") "LIVE_QUOTE" = true →
  let once := deliver now (Document (VObject data)) s in
  let twice := deliver now' (Document (VObject data)) once in
  twice = once
  ∧ trades twice = trades once
  ∧ autoTrades twice = autoTrades once
  ∧ (∀ i t1 t2 k,
        (trades once !! i = Some t1 ∧ trades twice !! i = Some t2)
        ∨ (autoTrades once !! i = Some t1 ∧ autoTrades twice !! i = Some t2) →
        price_field k → get t2 k = get t1 k).
Proof.
  intros Hty once twice.
  assert (Heq : twice = once).
  { unfold twice, once. rewrite !(deliver_LIVE_QUOTE _ _ _ Hty). simpl.
    rewrite insert_insert_eq. rewrite <- !list_fmap_compose.
    f_equal; apply list_fmap_ext; intros ? t _; simpl;
      apply reprice_idempotent. }
  rewrite Heq. repeat split.
  intros i t1 t2 k [[H1 H2] | [H1 H2]] _; congruence.
Qed.

(** *** The identifier directory *)

(** C8, as the code has it: for an id whose property key is not in the
    directory and is not the name of a member of [Object.prototype],
    [getMapping] returns the placeholder [{symbol: "Unknown", type: "OPT"}];
    it returns what is stored under the key when that is truthy and the
    placeholder when it is falsy, and it is a total function. *)
Theorem getMapping_default s conid :
  (conidMapping s !! ToPropertyKey conid = None →
   inherited (ToPropertyKey conid) = false →
   getMapping s conid = unknown_mapping)
  ∧ (∀ v, conidMapping s !! ToPropertyKey conid = Some v →
          getMapping s conid = if ToBoolean v then v else unknown_mapping).
Proof.
  unfold getMapping, or_else, get. split.
  - intros -> ->. reflexivity.
  - intros v ->. reflexivity.
Qed.

(** *** The connection manager *)






End Properties.

(** ** Concrete runs *)

Lemma push_prepends_and_evicts_oldest_witness :
  0 < 3 ∧ push 3 4 [3; 2; 1] = [4; 3; 2] ∧ push 3 2 [1] = [2; 1].
Proof.
  split; [lia |].
  destruct (push_prepends_and_evicts_oldest 3 4 [3; 2; 1])
    as (_ & _ & _ & _ & Hfull & _); [lia |].
  destruct (push_prepends_and_evicts_oldest 3 2 [1])
    as (_ & _ & _ & Hroom & _); [lia |].
  split; [apply (Hfull [3; 2] 1); reflexivity | apply Hroom; simpl; lia].
Defined.

Lemma call_put_record_initialised_witness :
  case_label (get auto_call_100 "type") "CALL"
    || case_label (get auto_call_100 "type") "PUT" = true
  ∧ get (enriched 1 auto_call_100) "currentPrice" = VNumber 1.5
  ∧ trades (deliver 1 (Document (VObject auto_call_100)) initial_session)
      = [enriched 1 auto_call_100]
  ∧ autoTrades (deliver 1 (Document (VObject auto_call_100)) initial_session)
      = [enriched 1 auto_call_100]
  ∧ autoTrades (deliver 1 (Document (VObject call_100)) initial_session) = [].
Proof.
  assert (Hty : case_label (get auto_call_100 "type") "CALL"
                || case_label (get auto_call_100 "type") "PUT" = true)
    by (vm_compute; reflexivity).
  assert (Hty' : case_label (get call_100 "type") "CALL"
                 || case_label (get call_100 "type") "PUT" = true)
    by (vm_compute; reflexivity).
  destruct (call_put_record_initialised 1 auto_call_100 initial_session Hty)
    as (_ & Hcur & _ & _ & Htrades & _ & Hauto & _).
  destruct (call_put_record_initialised 1 call_100 initial_session Hty')
    as (_ & _ & _ & _ & _ & _ & _ & Hplain).
  split; [exact Hty |]. split; [exact Hcur |]. split; [exact Htrades |].
  split.
  - apply Hauto. vm_compute. reflexivity.
  - apply Hplain. vm_compute. reflexivity.
Defined.


Lemma live_quote_frame_witness :
  case_label (get quote_100 "type") "LIVE_QUOTE" = true
  ∧ prints (deliver 2 (Document (VObject quote_100)) session_with_call)
    = prints session_with_call
  ∧ length (trades (deliver 2 (Document (VObject quote_100)) session_with_call)) = 1.
Proof.
  assert (Hty : case_label (get quote_100 "type") "LIVE_QUOTE" = true)
    by (vm_compute; reflexivity).
  split; [exact Hty |].
  destruct (live_quote_frame 2 quote_100 session_with_call Hty)
    as (Hprints & Hlen & _).
  split; [exact Hprints | exact Hlen].
Defined.

Lemma live_quote_idempotent_witness :
  case_label (get quote_100 "type") "LIVE_QUOTE" = true
  ∧ deliver 3 (Document (VObject quote_100))
      (deliver 2 (Document (VObject quote_100)) session_with_call)
    = deliver 2 (Document (VObject quote_100)) session_with_call.
Proof.
  assert (Hty : case_label (get quote_100 "type") "LIVE_QUOTE" = true)
    by (vm_compute; reflexivity).
  split; [exact Hty |].
  destruct (live_quote_idempotent 2 3 quote_100 session_with_call Hty)
    as (Hsame & _).
  exact Hsame.
Defined.

Lemma getMapping_default_witness :
  conidMapping initial_session !! ToPropertyKey (VNumber 100) = None
  ∧ inherited (ToPropertyKey (VNumber 100)) = false
  ∧ getMapping initial_session (VNumber 100) = unknown_mapping.
Proof.
  assert (Habsent : conidMapping initial_session !! ToPropertyKey (VNumber 100) = None)
    by reflexivity.
  assert (Hown : inherited (ToPropertyKey (VNumber 100)) = false)
    by (vm_compute; reflexivity).
  split; [exact Habsent |]. split; [exact Hown |].
  destruct (getMapping_default initial_session (VNumber 100)) as (Hdefault & _).
  exact (Hdefault Habsent Hown).
Defined.

(** An id nobody registered gets [{symbol: "Unknown", type: "OPT"}], which
    is not the object the specification names; and the id ["constructor"],
    registered by nobody either, gets the inherited [Object] constructor. *)
Lemma getMapping_default_counterexample :
  conidMapping initial_session !! ToPropertyKey (VString "AAPL") = None
  ∧ getMapping initial_session (VString "AAPL") = unknown_mapping
  ∧ unknown_mapping ≠ specified_placeholder
  ∧ conidMapping initial_session !! ToPropertyKey (VString "constructor") = None
  ∧ getMapping initial_session (VString "constructor") = VInherited "constructor".
Proof.
  split_and!; try reflexivity.
  intros Heq.
  apply (f_equal (λ v, match v with
                       | VObject o => o !! "type"
                       | _ => None
                       end)) in Heq.
  vm_compute in Heq. discriminate.
Qed.





(** 201 prints in a row: the ledger holds 200, the 201st at index 0 and the
    2nd at the tail; the 1st is gone. *)
Example print_feed_201 :
  length (prints (process (print_feed 201 1) initial_session)) = 200
  ∧ (λ t, get t "tradeSize") <$> prints (process (print_feed 201 1) initial_session) !! 0
    = Some (VNumber 201)
  ∧ (λ t, get t "tradeSize") <$> last (prints (process (print_feed 201 1) initial_session))
    = Some (VNumber 2).
Proof. split_and!; vm_compute; reflexivity. Qed.

Example ToBoolean_numbers :
  ToBoolean (VNumber 0) = false ∧ ToBoolean (VNumber (-0)) = false
  ∧ ToBoolean (VNumber PrimFloat.nan) = false ∧ ToBoolean (VNumber 1.5) = true
  ∧ strict_equals (VNumber 0) (VNumber (-0)) = true
  ∧ strict_equals (VNumber PrimFloat.nan) (VNumber PrimFloat.nan) = false
  ∧ strict_equals (VNumber 100) (VString "100") = false.
Proof. split_and!; vm_compute; reflexivity. Qed.

Example integer_host_keys :
  ToPropertyKey (VNumber 100) = "100"
  ∧ ToPropertyKey (VNumber (-7)) = "-7"
  ∧ ToPropertyKey (VNumber (-0)) = "0"
  ∧ ToPropertyKey (VArray [VNumber 1; VNull; VString "a"]) = "1,,a"
  ∧ ToPropertyKey VNull = "null".
Proof. split_and!; vm_compute; reflexivity. Qed.

(** ** Routing of messages to the state cells *)

Section Routing.

Context {host : Host}.

Implicit Types (s : Session) (data t : object) (now : float) (p : payload).

Ltac switch_cases :=
  unfold dispatch;
  repeat match goal with
         | |- context [if ?b then _ else _] => destruct b eqn:?
         end.

Lemma deliver_object now data s :
  deliver now (Document (VObject data)) s = dispatch now data s.
Proof. reflexivity. Qed.

Lemma deliver_not_object now p s :
  (∀ data, p ≠ Document (VObject data)) → deliver now p s = s.
Proof.
  intros Hp. destruct p as [text | json]; [done |].
  destruct json; try done. by destruct (Hp props).
Qed.

(** A message changes a state cell only if it carries the type that is
    routed to it: the connection flag is never touched by a message, the
    print ledger only by PRINT, the trade and auto-trade ledgers only by
    CALL, PUT and LIVE_QUOTE, and each overlay, the directory and the
    statistics only by their own message type. *)
Theorem message_changes_only_its_cells now p s :
  connected (deliver now p s) = connected s
  ∧ (case_label (type_of p) "PRINT" = false →
     prints (deliver now p s) = prints s)
  ∧ (case_label (type_of p) "CALL" = false →
     case_label (type_of p) "PUT" = false →
     case_label (type_of p) "LIVE_QUOTE" = false →
     trades (deliver now p s) = trades s
     ∧ autoTrades (deliver now p s) = autoTrades s)
  ∧ (case_label (type_of p) "LIVE_QUOTE" = false →
     quotes (deliver now p s) = quotes s)
  ∧ (case_label (type_of p) "UL_LIVE_QUOTE" = false →
     ulQuotes (deliver now p s) = ulQuotes s)
  ∧ (case_label (type_of p) "CONID_MAPPING" = false →
     conidMapping (deliver now p s) = conidMapping s)
  ∧ (case_label (type_of p) "TRADING_STATS" = false →
     stats (deliver now p s) = stats s).
Proof.
  destruct p as [text | json]; [by split_and! |].
  destruct json; try by split_and!.
  rewrite deliver_object. simpl type_of. split_and!.
  - by switch_cases.
  - intros Hty. unfold dispatch. rewrite Hty. by switch_cases.
  - intros Hcall Hput Hquote. unfold dispatch.
    rewrite Hcall, Hput, Hquote. by switch_cases.
  - intros Hty. unfold dispatch. rewrite Hty. by switch_cases.
  - intros Hty. unfold dispatch. rewrite Hty. by switch_cases.
  - intros Hty. unfold dispatch. rewrite Hty. by switch_cases.
  - intros Hty. unfold dispatch. rewrite Hty. by switch_cases.
Qed.

(** A message of no known type is ignored: when the payload's [type] is
    none of the seven labels (in particular when the document is a number, a
    string, a boolean or an array), the session is left exactly as it was,
    and unless the document is [null] the handler returns normally. *)
Theorem unknown_message_is_ignored now p s :
  Forall (λ label, case_label (type_of p) label = false) message_types →
  deliver now p s = s
  ∧ (∀ json, p = Document json → json ≠ VNull → json ≠ VUndefined →
             onmessage now p s = Normal s).
Proof.
  intros Hnone. unfold message_types in Hnone.
  repeat (apply Forall_cons in Hnone as [? Hnone]).
  assert (Hobj : ∀ data, p = Document (VObject data) → dispatch now data s = s).
  { intros data ->. simpl in *. unfold dispatch.
    repeat match goal with H : case_label _ _ = false |- _ => rewrite H; clear H end.
    reflexivity. }
  split.
  - destruct p as [text | json]; [done |]. destruct json; try done.
    rewrite deliver_object. by apply Hobj.
  - intros json -> Hnull Hundef. destruct json; try done.
    rewrite onmessage_object. f_equal. by apply Hobj.
Qed.

(** *** The print ledger as a log of arrivals *)

Lemma take_app_take {A} n (l k : list A) :
  take n (l ++ take n k) = take n (l ++ k).
Proof.
  rewrite !take_app, take_take. do 2 f_equal. lia.
Qed.

Lemma deliver_arrived_print now p s d :
  arrived_print (now, p) = Some d →
  prints (deliver now p s) = push 200 d (prints s).
Proof.
  unfold arrived_print. simpl. destruct p as [text | json]; [done |].
  destruct json; try done.
  destruct (case_label (get props "type") "PRINT") eqn:Hty; [| done].
  intros [= <-]. rewrite deliver_object. by rewrite (dispatch_PRINT _ _ _ Hty).
Qed.

Lemma deliver_no_print now p s :
  arrived_print (now, p) = None → prints (deliver now p s) = prints s.
Proof.
  unfold arrived_print. simpl. destruct p as [text | json]; [done |].
  destruct json; try done.
  destruct (case_label (get props "type") "PRINT") eqn:Hty; [done |].
  intros _. rewrite deliver_object. unfold dispatch. rewrite Hty.
  by switch_cases.
Qed.

Lemma process_bounded msgs : ∀ s, bounded s → bounded (process msgs s).
Proof.
  unfold process.
  induction msgs as [| [now p] rest IH]; intros s Hb; simpl; [done |].
  apply IH. by apply deliver_bounded.
Qed.

Lemma prints_log msgs : ∀ s,
  take 200 (prints (process msgs s))
  = take 200 (reverse (arrived_prints msgs) ++ prints s).
Proof.
  unfold process, arrived_prints.
  induction msgs as [| [now p] rest IH]; intros s; simpl; [done |].
  rewrite IH. destruct (arrived_print (now, p)) as [d |] eqn:Hp.
  - rewrite (deliver_arrived_print _ _ _ _ Hp). unfold push.
    rewrite take_app_take. by rewrite reverse_cons, <- app_assoc.
  - by rewrite (deliver_no_print _ _ _ Hp).
Qed.

(** The print ledger is the log of the PRINT events received, newest first,
    cut to its 200 most recent entries: no print is altered, reordered or
    dropped other than by overflow, whatever other messages are interleaved.
    *)
Theorem print_ledger_is_the_arrival_log (msgs : list (float * payload)) :
  prints (process msgs initial_session)
  = take 200 (reverse (arrived_prints msgs))
  ∧ printCount (process msgs initial_session)
    = 200 `min` length (arrived_prints msgs).
Proof.
  assert (Hlog : prints (process msgs initial_session)
                 = take 200 (reverse (arrived_prints msgs))).
  { rewrite <- (app_nil_r (reverse _)).
    change [] with (prints initial_session). rewrite <- prints_log.
    rewrite take_ge; [done |].
    apply (process_bounded msgs initial_session).
    unfold bounded. simpl. lia. }
  split; [done |].
  unfold printCount. by rewrite Hlog, length_take, length_reverse.
Qed.

(** *** The keyed stores *)

Lemma deliver_dom now p s :
  dom (conidMapping s) ⊆ dom (conidMapping (deliver now p s))
  ∧ dom (quotes s) ⊆ dom (quotes (deliver now p s))
  ∧ dom (ulQuotes s) ⊆ dom (ulQuotes (deliver now p s)).
Proof.
  destruct p as [text | json]; [done |]. destruct json; try done.
  rewrite deliver_object. switch_cases; simpl; split_and!;
    first [done | apply dom_insert_subseteq].
Qed.

(** Nothing is ever removed from the directory or from the two quote
    overlays: along any sequence of messages an id that has an entry keeps
    one, and the quote counter never goes down. *)
Theorem keyed_stores_only_grow (msgs : list (float * payload)) s :
  dom (conidMapping s) ⊆ dom (conidMapping (process msgs s))
  ∧ dom (quotes s) ⊆ dom (quotes (process msgs s))
  ∧ dom (ulQuotes s) ⊆ dom (ulQuotes (process msgs s))
  ∧ quoteCount s ≤ quoteCount (process msgs s).
Proof.
  assert (Hdom : dom (conidMapping s) ⊆ dom (conidMapping (process msgs s))
                 ∧ dom (quotes s) ⊆ dom (quotes (process msgs s))
                 ∧ dom (ulQuotes s) ⊆ dom (ulQuotes (process msgs s))).
  { unfold process. revert s.
    induction msgs as [| [now p] rest IH]; intros s; simpl; [done |].
    destruct (IH (deliver now p s)) as (Hm & Hq & Hu).
    destruct (deliver_dom now p s) as (Hm' & Hq' & Hu').
    split_and!; etrans; eauto. }
  destruct Hdom as (Hm & Hq & Hu). split_and!; try done.
  unfold quoteCount.
  apply subseteq_size in Hq, Hu. rewrite !size_dom in Hq, Hu. lia.
Qed.



(** *** The quote overlays and the statistics *)




Lemma dispatch_TRADING_STATS now data s :
  case_label (get data "type") "TRADING_STATS" = true →
  dispatch now data s = setStats (get data "stats") s.
Proof.
  intros Hty. unfold dispatch.
  apply case_label_spec in Hty. rewrite Hty. reflexivity.
Qed.

(** A TRADING_STATS event replaces the snapshot wholesale: after two of them
    the session is what the second alone would have made it, nothing of the
    first is left, and an event without [stats] stores [undefined]. *)
Theorem trading_stats_are_replaced_wholesale now1 now2 data1 data2 s :
  case_label (get data1 "type") "TRADING_STATS" = true →
  case_label (get data2 "type") "TRADING_STATS" = true →
  stats (deliver now1 (Document (VObject data1)) s) = get data1 "stats"
  ∧ deliver now2 (Document (VObject data2)) (deliver now1 (Document (VObject data1)) s)
    = deliver now2 (Document (VObject data2)) s
  ∧ (data1 !! "stats" = None →
     stats (deliver now1 (Document (VObject data1)) s) = VUndefined).
Proof.
  intros Hty1 Hty2. rewrite !deliver_object.
  rewrite (dispatch_TRADING_STATS _ _ _ Hty1), !(dispatch_TRADING_STATS _ _ _ Hty2).
  split_and!; try done.
  intros Hno. cbn. unfold get. by rewrite Hno.
Qed.

End Routing.

(** ** The records of the trade ledgers *)

Section TradeRecords.

Context {host : Host}.

Implicit Types (s : Session) (data t : object) (now : float) (p : payload).

Ltac kept_field := unfold price_field; intros [? | [? | ?]]; discriminate.

Lemma enriched_get now data k :
  k ≠ "receivedAt" → k ≠ "initialPrice" → ¬ price_field k →
  get (enriched now data) k = get data k.
Proof.
  intros Hr Hi Hk. unfold price_field in Hk. unfold enriched.
  rewrite !get_insert_ne; [done | intros <-; tauto ..].
Qed.

Lemma enriched_trade_record now data :
  case_label (get data "type") "CALL" || case_label (get data "type") "PUT" = true →
  trade_record (enriched now data).
Proof.
  intros Hty.
  assert (Hopt : get (enriched now data) "optionPrice" = get data "optionPrice")
    by (apply enriched_get; [done | done | kept_field]).
  assert (Hcur : get (enriched now data) "currentPrice" = get data "optionPrice").
  { unfold enriched. rewrite !get_insert_ne by done. apply get_insert_eq. }
  unfold trade_record. rewrite Hopt, Hcur. split_and!.
  - by rewrite enriched_get; [| done | done | kept_field].
  - exists now. unfold enriched. rewrite !get_insert_ne by done. apply get_insert_eq.
  - unfold enriched. rewrite !get_insert_ne by done. apply get_insert_eq.
  - done.
  - left. split_and!; [done | |]; unfold enriched.
    + rewrite get_insert_ne by done. apply get_insert_eq.
    + apply get_insert_eq.
Qed.

Lemma quoted_price_known data t :
  (is_nullish (get t "optionPrice") = false →
   is_nullish (get t "currentPrice") = false) →
  is_nullish (get t "optionPrice") = false →
  is_nullish (quoted_price data t) = false.
Proof.
  intros Hknown Hopt. specialize (Hknown Hopt). unfold quoted_price.
  destruct (get data "last"); try done; by destruct (get t "currentPrice").
Qed.

Lemma reprice_trade_record data t :
  trade_record t → trade_record (reprice data t).
Proof.
  intros (Hty & Hat & Hentry & Hknown & Hfields).
  destruct (strict_equals (get t "conid") (get data "conid")) eqn:Hc;
    [| by rewrite (reprice_other _ _ Hc)].
  destruct (reprice_repriced _ _ Hc) as (Hcur & Hchange & Hpct).
  unfold trade_record.
  rewrite !(reprice_get data t "type"), (reprice_get data t "receivedAt"),
    !(reprice_get data t "initialPrice"), !(reprice_get data t "optionPrice")
    by kept_field.
  rewrite Hcur. split_and!; try done.
  - by apply quoted_price_known.
  - right. unfold repriced_to.
    rewrite !(reprice_get data t "initialPrice") by kept_field.
    by rewrite Hcur.
Qed.

Lemma elem_of_push {A} N (x y : A) l : y ∈ push N x l → y = x ∨ y ∈ l.
Proof. unfold push. intros Hin. by apply subseteq_take, elem_of_cons in Hin. Qed.

Lemma dispatch_well_formed now data s :
  ledgers_well_formed s → ledgers_well_formed (dispatch now data s).
Proof.
  intros (Ht & Ha & Hp). unfold dispatch.
  repeat match goal with
         | |- context [if ?b then _ else _] => destruct b eqn:?
         end; unfold ledgers_well_formed;
    cbn [trades autoTrades prints setTrades setAutoTrades setPrints setQuotes
         setUlQuotes setConidMapping setStats];
    split_and!; try done.
  - intros t [-> | Hin]%elem_of_push; [by apply enriched_trade_record | auto].
  - intros t [-> | Hin]%elem_of_push; [| auto].
    split; [by apply enriched_trade_record |].
    by rewrite enriched_get; [| done | done | kept_field].
  - intros t [-> | Hin]%elem_of_push; [by apply enriched_trade_record | auto].
  - intros d [-> | Hin]%elem_of_push; auto.
  - intros t (t0 & -> & Hin)%list_elem_of_fmap. by apply reprice_trade_record, Ht.
  - intros t (t0 & -> & Hin)%list_elem_of_fmap.
    destruct (Ha _ Hin) as [Hrec Hflag].
    split; [by apply reprice_trade_record |].
    by rewrite reprice_get by kept_field.
Qed.

Lemma process_well_formed msgs : ∀ s,
  ledgers_well_formed s → ledgers_well_formed (process msgs s).
Proof.
  unfold process.
  induction msgs as [| [now p] rest IH]; intros s Hs; simpl; [done |].
  apply IH. destruct p as [text | json]; [done |].
  destruct json; try done. by apply dispatch_well_formed.
Qed.

(** Whatever messages arrive, every record of the trade ledger came from a
    CALL or PUT event and was stamped with its arrival time; its
    [initialPrice] is still its entry [optionPrice]; its current price is
    known whenever its entry price is; and its price changes are either the
    0s of its creation or those of a quote at its current price.  The
    auto-trade ledger holds such records only, and only flagged ones; the
    print ledger holds PRINT events only. *)
Theorem ledger_records_stay_well_formed (msgs : list (float * payload)) :
  ledgers_well_formed (process msgs initial_session).
Proof.
  apply process_well_formed. unfold ledgers_well_formed. simpl.
  split_and!; intros ? Hin; by apply elem_of_nil in Hin.
Qed.

(** *** Profit and loss *)


Lemma nullish_known a b : is_nullish a = false → nullish a b = a.
Proof. by destruct a. Qed.


(** *** Quotes without a price, quotes for different instruments *)

Lemma get_known_own (o : object) k v :
  inherited k = false → get o k = v → v ≠ VUndefined → o !! k = Some v.
Proof.
  unfold get. intros Hk. destruct (o !! k); [by intros -> |].
  rewrite Hk. by intros <-.
Qed.

(** A LIVE_QUOTE event that carries no [last] (missing or [null]) cannot
    move a price: a matching record whose current price is known keeps it,
    and a record that an earlier quote had already repriced is returned
    exactly as it was. *)
Theorem quote_without_last_keeps_the_price now data s i t :
  case_label (get data "type") "LIVE_QUOTE" = true →
  is_nullish (get data "last") = true →
  trades s !! i = Some t →
  is_nullish (get t "currentPrice") = false →
  ∃ t', trades (deliver now (Document (VObject data)) s) !! i = Some t'
        ∧ get t' "currentPrice" = get t "currentPrice"
        ∧ (repriced_to (get t "currentPrice") t t → t' = t).
Proof.
  intros Hty Hlast Hi Hcur. rewrite (deliver_LIVE_QUOTE _ _ _ Hty). cbn [trades].
  exists (reprice data t). split; [by rewrite list_lookup_fmap, Hi |].
  assert (Hq : quoted_price data t = get t "currentPrice").
  { unfold quoted_price.
    destruct (get data "last"); try done; simpl; by apply nullish_known. }
  destruct (strict_equals (get t "conid") (get data "conid")) eqn:Hc;
    [| by rewrite (reprice_other _ _ Hc)].
  split.
  - destruct (reprice_repriced _ _ Hc) as (-> & _). exact Hq.
  - intros (_ & Hchange & Hpct). rewrite (reprice_match _ _ Hc), Hq.
    assert (Hundef : get t "currentPrice" ≠ VUndefined)
      by (intros Hu; by rewrite Hu in Hcur).
    rewrite (insert_id t "currentPrice" (get t "currentPrice"))
      by (by apply get_known_own).
    unfold js_sub at 2. rewrite <- Hchange.
    rewrite (insert_id t "priceChange" (get t "priceChange")).
    2:{ apply get_known_own; [done | done |]. by rewrite Hchange. }
    apply insert_id. apply get_known_own; [done | | ].
    + rewrite Hpct. unfold js_mul, js_div, js_sub. simpl.
      by destruct (ToBoolean _).
    + by destruct (ToBoolean _).
Qed.

Lemma SFeqb_inv a b :
  SFeqb a b = true →
  a = b ∨ (∃ sg1 sg2, a = S754_zero sg1 ∧ b = S754_zero sg2).
Proof.
  unfold SFeqb, SFcompare.
  destruct a as [sg1 | sg1 | | sg1 m1 e1], b as [sg2 | sg2 | | sg2 m2 e2];
    try discriminate; try (destruct sg1; discriminate);
    try (destruct sg2; discriminate).
  - right. by exists sg1, sg2.
  - destruct sg1, sg2; try discriminate; by left.
  - destruct sg1, sg2; try discriminate;
      destruct (e1 ?= e2)%Z eqn:He; try discriminate;
      apply Z.compare_eq in He; subst e2;
      destruct (Pos.compare_cont Eq m1 m2) eqn:Hm; try discriminate;
      apply Pos.compare_eq in Hm; subst m2; by left.
Qed.

Lemma float_eqb_euclidean x y z :
  PrimFloat.eqb x y = true → PrimFloat.eqb x z = true → PrimFloat.eqb y z = true.
Proof.
  rewrite !FloatAxioms.eqb_spec. intros Hxy Hxz.
  destruct (SFeqb_inv _ _ Hxy) as [Heq | (sg1 & sg2 & Hx & Hy)].
  - by rewrite <- Heq.
  - destruct (SFeqb_inv _ _ Hxz) as [Heq | (sg3 & sg4 & _ & Hz)].
    + by rewrite <- Heq, Hx, Hy in *.
    + by rewrite Hy, Hz.
Qed.

Lemma strict_equals_euclidean a b c :
  strict_equals a b = true → strict_equals a c = true → strict_equals b c = true.
Proof.
  destruct a, b; simpl; try discriminate; destruct c; simpl; try discriminate;
    try done.
  - intros ->%Bool.eqb_prop ->%Bool.eqb_prop. apply Bool.eqb_reflx.
  - apply float_eqb_euclidean.
  - intros ->%String.eqb_eq ->%String.eqb_eq. apply String.eqb_refl.
  - intros ->%String.eqb_eq ->%String.eqb_eq. apply String.eqb_refl.
Qed.

Lemma reprice_commute data1 data2 t :
  strict_equals (get data1 "conid") (get data2 "conid") = false →
  reprice data1 (reprice data2 t) = reprice data2 (reprice data1 t).
Proof.
  intros Hdiff.
  assert (Hconid : ∀ d, get (reprice d t) "conid" = get t "conid")
    by (intros d; apply reprice_get; kept_field).
  destruct (strict_equals (get t "conid") (get data1 "conid")) eqn:H1,
           (strict_equals (get t "conid") (get data2 "conid")) eqn:H2.
  - by rewrite (strict_equals_euclidean _ _ _ H1 H2) in Hdiff.
  - rewrite (reprice_other data2 t H2).
    rewrite (reprice_other data2 (reprice data1 t)); [done |].
    by rewrite Hconid.
  - rewrite (reprice_other data1 t H1).
    rewrite (reprice_other data1 (reprice data2 t)); [done |].
    by rewrite Hconid.
  - by rewrite (reprice_other data1 (reprice data2 t)),
      (reprice_other data2 (reprice data1 t)), (reprice_other data1 t),
      (reprice_other data2 t) by (by rewrite ?Hconid).
Qed.

(** Quotes for different instruments can arrive in either order: when the
    ids of two LIVE_QUOTE events are not [===], both orders leave the same
    trade and auto-trade ledgers; when their property keys differ as well,
    both orders leave the same session. *)
Theorem quotes_for_different_instruments_commute now1 now2 data1 data2 s :
  case_label (get data1 "type") "LIVE_QUOTE" = true →
  case_label (get data2 "type") "LIVE_QUOTE" = true →
  strict_equals (get data1 "conid") (get data2 "conid") = false →
  let first1 := deliver now2 (Document (VObject data2))
                  (deliver now1 (Document (VObject data1)) s) in
  let first2 := deliver now1 (Document (VObject data1))
                  (deliver now2 (Document (VObject data2)) s) in
  trades first1 = trades first2
  ∧ autoTrades first1 = autoTrades first2
  ∧ (ToPropertyKey (get data1 "conid") ≠ ToPropertyKey (get data2 "conid") →
     first1 = first2).
Proof.
  intros Hty1 Hty2 Hdiff first1 first2. unfold first1, first2.
  rewrite !(deliver_LIVE_QUOTE _ _ _ Hty1), !(deliver_LIVE_QUOTE _ _ _ Hty2).
  cbn [trades autoTrades prints quotes ulQuotes conidMapping stats connected].
  assert (Hledger : ∀ l : list object,
            reprice data2 <$> (reprice data1 <$> l)
            = reprice data1 <$> (reprice data2 <$> l)).
  { intros l. rewrite <- !list_fmap_compose. apply list_fmap_ext.
    intros ? t _. simpl. symmetry. by apply reprice_commute. }
  split_and!; [apply Hledger | apply Hledger |].
  intros Hkeys. rewrite !Hledger. f_equal. by apply insert_insert_ne.
Qed.

End TradeRecords.

(** ** Invariants of the connection manager *)

Section Connections.

Context {host : Host}.

Lemma run_invariant (I : World → Prop) :
  (∀ e w w', step e w = Some w' → I w → I w') →
  ∀ es w w', run es w = Some w' → I w → I w'.
Proof.
  intros Hstep es. induction es as [| e rest IH]; intros w w' Hrun Hw;
    simpl in Hrun.
  - by simplify_eq.
  - destruct (step e w) as [w1 |] eqn:He; [| done]. eauto.
Qed.

Lemma run_app es1 es2 w :
  run (es1 ++ es2) w = match run es1 w with
                       | Some w1 => run es2 w1
                       | None => None
                       end.
Proof.
  revert w. induction es1 as [| e rest IH]; intros w; simpl; [done |].
  by destruct (step e w).
Qed.

(** *** [wsRef] *)

Lemma step_newest e w w' : step e w = Some w' → newest w → newest w'.
Proof.
  unfold newest. intros Hstep Hw.
  assert (Happ : ∀ l : list readyState,
            match l ++ [CONNECTING] with
            | [] => None
            | _ :: _ => Some (length (l ++ [CONNECTING]) - 1)
            end = Some (length l)).
  { intros l. rewrite length_app. simpl.
    destruct l; simpl; f_equal; lia. }
  assert (Hlen : ∀ l l' : list readyState, length l' = length l →
            match l' with
            | [] => None
            | _ :: _ => Some (length l' - 1)
            end = match l with
                  | [] => None
                  | _ :: _ => Some (length l - 1)
                  end).
  { intros l l' Hl. destruct l, l'; simpl in *; try done. f_equal. lia. }
  assert (Hins : ∀ (l : list readyState) i r,
            match <[i := r]> l with
            | [] => None
            | _ :: _ => Some (length (<[i := r]> l) - 1)
            end = match l with
                  | [] => None
                  | _ :: _ => Some (length l - 1)
                  end)
    by (intros; apply Hlen, length_insert).
  assert (Halt : ∀ (l : list readyState) i,
            match alter closing i l with
            | [] => None
            | _ :: _ => Some (length (alter closing i l) - 1)
            end = match l with
                  | [] => None
                  | _ :: _ => Some (length l - 1)
                  end)
    by (intros; apply Hlen, length_alter).
  destruct e; simpl in Hstep.
  - destruct (mounted w); simplify_eq. simpl. by rewrite Happ.
  - destruct (mounted w); simplify_eq.
    unfold cleanup, WebSocket_close, with_sockets, with_mounted.
    cbn [wsRef sockets]. destruct (wsRef w); cbn [wsRef sockets]; [| done].
    by rewrite Halt.
  - destruct (sockets w !! ws) as [[] |]; simplify_eq.
    unfold onopen, with_sockets. cbn [wsRef sockets]. by rewrite Hins.
  - destruct (sockets w !! ws) as [[] |]; by simplify_eq.
  - destruct (sockets w !! ws) as [[] |]; by simplify_eq.
  - destruct (sockets w !! ws) as [[] |]; simplify_eq;
      unfold onclose, with_timers, with_session, with_sockets;
      cbn [wsRef sockets]; by rewrite Hins.
  - destruct (timers w !! k) as [[[] ?] |]; simplify_eq. simpl. by rewrite Happ.
Qed.

(** [wsRef] always holds the socket that was created last (none before the
    first connection attempt), so the cleanup can only ever close that one:
    at teardown every older socket keeps the state it has. *)
Theorem wsRef_holds_the_newest_socket es w :
  run es initial_world = Some w →
  wsRef w = match sockets w with
            | [] => None
            | _ :: _ => Some (length (sockets w) - 1)
            end
  ∧ (∀ w' ws, step Unmount w = Some w' →
              S ws < length (sockets w) →
              sockets w' !! ws = sockets w !! ws).
Proof.
  intros Hrun.
  assert (Hw : newest w).
  { apply (run_invariant newest step_newest es initial_world w Hrun).
    reflexivity. }
  split; [exact Hw |].
  intros w' ws Hstep Hold. simpl in Hstep.
  destruct (mounted w); simplify_eq.
  unfold cleanup, WebSocket_close, with_sockets, with_mounted.
  cbn [wsRef sockets]. unfold newest in Hw. rewrite Hw.
  destruct (sockets w) as [| r l] eqn:Hs; [done |].
  cbn [sockets]. apply list_lookup_alter_ne. simpl in *. lia.
Qed.

(** *** Reconnections are neither lost nor duplicated *)

Lemma closed_insert (l : list readyState) i r r' :
  l !! i = Some r →
  length (List.filter is_closed (<[i := r']> l)) + (if is_closed r then 1 else 0)
  = length (List.filter is_closed l) + (if is_closed r' then 1 else 0).
Proof.
  revert i. induction l as [| x l IH]; intros i Hi; [done |].
  destruct i as [| i]; simpl in *.
  - simplify_eq. destruct (is_closed r), (is_closed r'); simpl; lia.
  - specialize (IH i Hi). destruct (is_closed x); simpl; lia.
Qed.

Lemma closed_alter (l : list readyState) i :
  length (List.filter is_closed (alter closing i l))
  = length (List.filter is_closed l).
Proof.
  revert i. induction l as [| x l IH]; intros i; [done |].
  destruct i as [| i].
  - by destruct x.
  - change (alter closing (S i) (x :: l)) with (x :: alter closing i l).
    cbn [List.filter]. destruct (is_closed x); cbn [length]; by rewrite IH.
Qed.

Lemma closed_app (l : list readyState) :
  length (List.filter is_closed (l ++ [CONNECTING]))
  = length (List.filter is_closed l).
Proof. rewrite List.filter_app, length_app. simpl. lia. Qed.

Lemma step_conserves e w w' :
  step e w = Some w' →
  length (sockets w') + length (timers w') + closed_count w
  = length (sockets w) + length (timers w) + closed_count w'
    + (if is_mount e then 1 else 0).
Proof.
  unfold closed_count. intros Hstep. destruct e; simpl in Hstep.
  - destruct (mounted w); simplify_eq. simpl.
    rewrite closed_app, length_app. simpl. lia.
  - destruct (mounted w); simplify_eq.
    unfold cleanup, WebSocket_close, with_sockets, with_mounted.
    destruct (wsRef w); cbn [wsRef sockets timers]; simpl;
      rewrite ?closed_alter, ?length_alter; lia.
  - destruct (sockets w !! ws) as [[] |] eqn:Hws; simplify_eq.
    unfold onopen, with_sockets. cbn [sockets timers].
    pose proof (closed_insert _ _ _ OPEN Hws) as Hc. simpl in Hc.
    rewrite length_insert. simpl. lia.
  - destruct (sockets w !! ws) as [[] |]; simplify_eq. simpl. lia.
  - destruct (sockets w !! ws) as [[] |]; simplify_eq; simpl; lia.
  - destruct (sockets w !! ws) as [[] |] eqn:Hws; simplify_eq;
      unfold onclose, with_timers, with_session, with_sockets;
      cbn [sockets timers];
      pose proof (closed_insert _ _ _ CLOSED Hws) as Hc; simpl in Hc;
      rewrite length_insert, length_app; simpl; lia.
  - destruct (timers w !! k) as [[[] ms] |] eqn:Hk; simplify_eq.
    unfold run_callback, connectWebSocket, with_timers.
    cbn [sockets timers handler].
    rewrite closed_app, length_app, length_delete by eauto.
    apply lookup_lt_Some in Hk. simpl. lia.
Qed.

Lemma run_conserves es : ∀ w w',
  run es w = Some w' →
  length (sockets w') + length (timers w') + closed_count w
  = length (sockets w) + length (timers w) + closed_count w' + mounts es.
Proof.
  induction es as [| e rest IH]; intros w w' Hrun; simpl in Hrun.
  - simplify_eq. unfold mounts. simpl. lia.
  - destruct (step e w) as [w1 |] eqn:He; [| done].
    pose proof (step_conserves _ _ _ He) as H1.
    pose proof (IH _ _ Hrun) as H2.
    unfold mounts in *. simpl. destruct (is_mount e); simpl; lia.
Qed.

(** Every connection that has closed is replaced by exactly one thing, a
    pending reconnection timeout or a new connection: at any moment the
    number of connections attempted plus the number of timeouts pending is
    the number of times the component was mounted plus the number of closed
    connections.  No reconnection is lost, none is doubled, and an [error]
    or a message never adds one. *)
Theorem every_close_is_answered_once es w :
  run es initial_world = Some w →
  length (sockets w) + length (timers w) = mounts es + closed_count w.
Proof.
  intros Hrun. pose proof (run_conserves _ _ _ Hrun) as Hc.
  unfold closed_count in *. simpl in Hc. lia.
Qed.

(** *** The subscription handshake *)

Lemma handshakes_connect w :
  handshakes_ok w → handshakes_ok (connectWebSocket w).
Proof.
  intros [Hsub Hws]. split; [exact Hsub |].
  intros ws. specialize (Hws ws). unfold frames_on in *.
  cbn [sockets sent connectWebSocket].
  destruct (decide (ws < length (sockets w))) as [Hlt | Hge].
  - by rewrite lookup_app_l.
  - rewrite lookup_ge_None_2 in Hws by lia.
    destruct (decide (ws = length (sockets w))) as [-> | Hne].
    + by rewrite list_lookup_middle.
    + rewrite lookup_ge_None_2; [done |]. rewrite length_app. simpl. lia.
Qed.

Lemma step_handshakes e w w' :
  step e w = Some w' → handshakes_ok w → handshakes_ok w'.
Proof.
  intros Hstep [Hsub Hws]. destruct e; simpl in Hstep.
  - destruct (mounted w); simplify_eq. by apply (handshakes_connect (with_mounted true w)).
  - destruct (mounted w); simplify_eq.
    split; [unfold cleanup; simpl; destruct (wsRef w); exact Hsub |].
    intros ws. specialize (Hws ws).
    unfold cleanup, WebSocket_close, with_sockets, with_mounted, frames_on in *.
    destruct (wsRef w) as [cur |]; cbn [wsRef sockets sent]; [| done].
    rewrite list_lookup_alter. case_decide; [| done]. subst cur.
    destruct (sockets w !! ws) as [[] |]; simpl; try done.
    + rewrite Hws. simpl. lia.
    + lia.
  - destruct (sockets w !! ws) as [[] |] eqn:Hopen; simplify_eq. split.
    + intros frame. cbn [sent onopen].
      intros [Hin | ->%list_elem_of_singleton]%elem_of_app; [auto | done].
    + intros ws'. pose proof (Hws ws') as Hws'. pose proof (Hws ws) as Hold.
      rewrite Hopen in Hold.
      unfold frames_on, onopen, with_sockets in *. cbn [sockets sent].
      rewrite List.filter_app, length_app. cbn [List.filter fst].
      destruct (decide (ws = ws')) as [<- | Hne].
      * rewrite list_lookup_insert_eq by (by eapply lookup_lt_Some).
        rewrite Hold, Nat.eqb_refl. reflexivity.
      * rewrite list_lookup_insert_ne by done.
        apply Nat.eqb_neq in Hne. rewrite Hne, app_nil_r.
        destruct (sockets w !! ws') as [[] |]; simpl; lia || done.
  - destruct (sockets w !! ws) as [[] |]; by simplify_eq.
  - destruct (sockets w !! ws) as [[] |]; by simplify_eq.
  - assert (Hclosed : ∀ r, sockets w !! ws = Some r →
              handshakes_ok (onclose (with_sockets (<[ws := CLOSED]>) w))).
    { intros r Hr. split; [exact Hsub |]. intros ws'.
      pose proof (Hws ws') as Hws'. pose proof (Hws ws) as Hold.
      rewrite Hr in Hold.
      unfold frames_on, onclose, with_timers, with_session, with_sockets in *.
      cbn [sockets sent].
      destruct (decide (ws = ws')) as [<- | Hne].
      - rewrite list_lookup_insert_eq by (by eapply lookup_lt_Some).
        destruct r; rewrite ?Hold; simpl; lia.
      - by rewrite list_lookup_insert_ne. }
    destruct (sockets w !! ws) as [[] |] eqn:Hr; simplify_eq; eauto.
  - destruct (timers w !! k) as [[[] ms] |]; simplify_eq.
    by apply (handshakes_connect (with_timers (delete k) w)).
Qed.

(** The subscription is sent once per connection that opens and never
    otherwise: in every reachable state each frame that was sent is the
    subscription, sent on a socket the component created; no socket has sent
    more than one; an open socket has sent exactly one and a connecting
    socket none. *)
Theorem one_handshake_per_opened_socket es w :
  run es initial_world = Some w →
  (∀ ws frame, (ws, frame) ∈ sent w →
      frame = subscribe ∧ ws < length (sockets w))
  ∧ (∀ ws, length (frames_on ws w) ≤ 1)
  ∧ (∀ ws, sockets w !! ws = Some OPEN → length (frames_on ws w) = 1)
  ∧ (∀ ws, sockets w !! ws = Some CONNECTING → frames_on ws w = []).
Proof.
  intros Hrun.
  assert (Hok : handshakes_ok w).
  { apply (run_invariant handshakes_ok step_handshakes es initial_world w Hrun).
    split; [by intros frame Hin%elem_of_nil | by intros ws]. }
  destruct Hok as [Hsub Hws]. split_and!.
  - intros ws frame Hin. split; [by apply (Hsub (ws, frame)) |].
    specialize (Hws ws).
    assert (Hon : List.In (ws, frame) (frames_on ws w)).
    { apply List.filter_In. split; [by apply list_elem_of_In |].
      apply Nat.eqb_refl. }
    destruct (sockets w !! ws) as [r |] eqn:Hr;
      [by eapply lookup_lt_Some | by rewrite Hws in Hon].
  - intros ws. specialize (Hws ws).
    destruct (sockets w !! ws) as [[] |]; rewrite ?Hws; simpl; lia.
  - intros ws Hopen. specialize (Hws ws). by rewrite Hopen in Hws.
  - intros ws Hconn. specialize (Hws ws). by rewrite Hconn in Hws.
Qed.

End Connections.

(** ** The trade filter *)

Section Filtering.

Context {host : Host} {cases : CaseMapping}.

Implicit Types (s : Session) (t : object) (f : Filters).

Lemma filter_array_all {A} (keep : A → completion bool) (l : list A) :
  (∀ x, x ∈ l → keep x = Normal true) → filter_array keep l = Normal l.
Proof.
  induction l as [| x l IH]; intros Hall; simpl; [done |].
  rewrite Hall by left. rewrite IH; [done |].
  intros y Hy. apply Hall. by right.
Qed.

Lemma filter_array_normal {A} (keep : A → completion bool) (l kept : list A) :
  filter_array keep l = Normal kept →
  sublist kept l
  ∧ (∀ x, x ∈ kept → keep x = Normal true)
  ∧ (∀ x, x ∈ l → keep x = Normal true → x ∈ kept).
Proof.
  revert kept. induction l as [| x l IH]; intros kept Hf; simpl in Hf.
  - simplify_eq. split_and!; [done | | done]. by intros x Hx%elem_of_nil.
  - destruct (keep x) as [b | e] eqn:Hx; [| done].
    destruct (filter_array keep l) as [rest | e] eqn:Hrest; [| done].
    destruct (IH rest eq_refl) as (Hsub & Hin & Hall). simplify_eq.
    destruct b; split_and!.
    + by apply sublist_skip.
    + intros y [-> | Hy]%elem_of_cons; auto.
    + intros y [-> | Hy]%elem_of_cons Hk; [left | right; auto].
    + by apply sublist_cons.
    + done.
    + intros y [-> | Hy]%elem_of_cons Hk; [congruence | auto].
Qed.



Lemma shown_initially t : shown initial_filters t = Normal true.
Proof. reflexivity. Qed.


Lemma VString_truthy x : ToBoolean (VString x) = true ↔ x ≠ "".
Proof.
  simpl. rewrite negb_true_iff. split.
  - by intros ?%String.eqb_neq.
  - by intros ?%String.eqb_neq.
Qed.

Lemma mismatch_clause chosen v :
  negb (String.eqb chosen "all") && negb (strict_equals v (VString chosen)) = false
  ↔ (chosen ≠ "all" → v = VString chosen).
Proof.
  rewrite andb_false_iff, !negb_false_iff, String.eqb_eq.
  rewrite (case_label_spec v chosen : strict_equals v (VString chosen) = true ↔ _).
  destruct (decide (chosen = "all")) as [Hall | Hother]; split.
  - by intros _ Hne.
  - intros _. by left.
  - intros [Hall | Heq]; [done | by intros _].
  - intros Heq. right. by apply Heq.
Qed.

Lemma existsb_string items wanted :
  existsb (λ item, strict_equals item (VString wanted)) items = true
  ↔ VString wanted ∈ items.
Proof.
  rewrite existsb_exists. setoid_rewrite <- list_elem_of_In. split.
  - intros (item & Hin & Heq). apply (case_label_spec item wanted) in Heq.
    by subst.
  - intros Hin. exists (VString wanted). split; [done |].
    by apply (case_label_spec (VString wanted) wanted).
Qed.

Lemma shown_meets f t : shown f t = Normal true ↔ meets f t.
Proof.
  split.
  - intros Hshown.
    unfold shown, symbol_includes, classifications_include in Hshown.
    unfold meets.
    repeat case_match; simplify_eq;
      repeat match goal with
             | H : negb (ToBoolean (VBool _)) = false |- _ =>
                 simpl in H; apply negb_false_iff in H
             | H : negb (String.eqb _ "all") && _ = false |- _ =>
                 let H' := fresh in
                 pose proof (proj1 (mismatch_clause _ _) H) as H'; clear H
             | H : ToBoolean (VString _) = true |- _ =>
                 let H' := fresh in
                 pose proof (proj1 (VString_truthy _) H) as H'; clear H
             | H : ToBoolean (VString _) = false |- _ =>
                 simpl in H; apply negb_false_iff, String.eqb_eq in H
             | H : negb (String.eqb _ "all") = true |- _ =>
                 let H' := fresh in
                 pose proof (proj1 (String.eqb_neq _ _) (proj1 (negb_true_iff _) H)) as H';
                 clear H
             | H : negb (String.eqb _ "all") = false |- _ =>
                 apply negb_false_iff, String.eqb_eq in H
             | H : existsb _ _ = true |- _ => apply existsb_string in H
             | H : ToBoolean (VNumber _) && less_than _ _ = false |- _ =>
                 apply andb_false_iff in H; unfold less_than in H
             end;
      (split_and!;
       [ first [ intros Hon; contradiction | intros _; solve [eauto] ]
       | intros Hon;
         match goal with
         | H : _ ∨ _ |- _ =>
             destruct H as [H | H]; [by rewrite H in Hon | exact H]
         end
       | assumption
       | first [ intros Hon; contradiction
               | intros _; left; solve [eauto]
               | intros _; right; solve [eauto] ]
       | assumption ]).
  - intros (Hsym & Hmin & Hdir & Hcls & Hst). unfold shown.
    assert (H1 : (if ToBoolean (VString (symbol f))
                  then symbol_includes (get t "symbol") (symbol f)
                  else Normal (VBool true)) = Normal (VBool true)).
    { destruct (ToBoolean (VString (symbol f))) eqn:Hon; [| done].
      apply VString_truthy in Hon. destruct (Hsym Hon) as (str & -> & Hinc).
      simpl. by rewrite Hinc. }
    rewrite H1. change (ToBoolean (VBool true)) with true. cbn [negb].
    assert (H2 : ToBoolean (VNumber (minPremium f))
                 && less_than (get t "premium") (minPremium f) = false).
    { destruct (ToBoolean (VNumber (minPremium f))) eqn:Hon; [| done].
      simpl. by apply Hmin. }
    rewrite H2.
    rewrite (proj2 (mismatch_clause _ _) Hdir).
    assert (H4 : (if negb (String.eqb (classification f) "all")
                  then classifications_include (get t "classifications")
                         (classification f)
                  else Normal (VBool true)) = Normal (VBool true)).
    { destruct (String.eqb (classification f) "all") eqn:Hon; [done |].
      apply String.eqb_neq in Hon. simpl.
      destruct (Hcls Hon) as [(items & -> & Hin) | (str & -> & Hinc)]; simpl.
      - by rewrite (proj2 (existsb_string _ _) Hin).
      - by rewrite Hinc. }
    rewrite H4. change (ToBoolean (VBool true)) with true. cbn [negb].
    by rewrite (proj2 (mismatch_clause _ _) Hst).
Qed.

(** With the filters as the component starts them every trade is shown, in
    ledger order, whatever its fields hold; and the premium input can only
    switch the premium filter on with text that converts to a number other
    than 0 and NaN: after any other text it stores 0 and every trade is
    still shown. *)
Theorem initial_filters_show_every_trade s :
  filteredTrades initial_filters s = Normal (trades s)
  ∧ (∀ text f, PrimFloat.is_nan (minPremium (set_minPremium text f)) = false)
  ∧ (∀ text, ToBoolean (VNumber (StringToNumber text)) = false →
             filteredTrades (set_minPremium text initial_filters) s
             = Normal (trades s)).
Proof.
  split_and!.
  - apply filter_array_all. intros t _. apply shown_initially.
  - intros text f. unfold set_minPremium. cbn [minPremium ToNumber].
    destruct (ToBoolean (VNumber (StringToNumber text))) eqn:Hn; [| done].
    simpl in Hn. apply negb_true_iff, orb_false_iff in Hn. tauto.
  - intros text Hoff. apply filter_array_all. intros t _.
    unfold set_minPremium. cbn [ToNumber]. rewrite Hoff. reflexivity.
Qed.

(** When the filter returns, what it shows is a sub-list of the trade ledger
    in ledger order, and a trade of the ledger is shown exactly when it meets
    every filter that is set: its symbol is a string that contains the wanted
    text (both in upper case), its premium is not below the minimum, its
    direction and stance are the chosen ones, and its classifications (an
    array or a string) contain the chosen one. *)
Theorem shown_trades_are_those_that_meet_the_filters f s kept :
  filteredTrades f s = Normal kept →
  sublist kept (trades s)
  ∧ (∀ t, t ∈ kept ↔ t ∈ trades s ∧ meets f t).
Proof.
  intros Hf. apply filter_array_normal in Hf as (Hsub & Hkept & Hall).
  split; [done |]. intros t. split.
  - intros Hin. split; [by apply (sublist_subseteq _ _ Hsub) | by apply shown_meets, Hkept].
  - intros [Hin Hmeets]. by apply Hall, shown_meets.
Qed.


End Filtering.

(** ** The session across reconnections *)

Section Sessions.

Context {host : Host}.

Implicit Types (s : Session) (w : World).

Lemma deliver_setConnected now p b s :
  deliver now p (setConnected b s) = setConnected b (deliver now p s).
Proof.
  destruct p as [text | json]; [done |]. destruct json; try done.
  change (dispatch now props (setConnected b s)
          = setConnected b (dispatch now props s)).
  unfold dispatch.
  repeat match goal with
         | |- context [if ?c then _ else _] => destruct c
         end; reflexivity.
Qed.

Lemma process_setConnected msgs : ∀ b s,
  process msgs (setConnected b s) = setConnected b (process msgs s).
Proof.
  unfold process.
  induction msgs as [| [now p] rest IH]; intros b s; simpl; [done |].
  by rewrite deliver_setConnected, IH.
Qed.

Lemma setConnected_twice b c s :
  setConnected c (setConnected b s) = setConnected c s.
Proof. reflexivity. Qed.

Lemma setConnected_same s : setConnected (connected s) s = s.
Proof. by destruct s. Qed.

Lemma step_session e w w' :
  step e w = Some w' →
  match message_of e with
  | Some (now, p) => session w' = deliver now p (session w)
  | None => ∃ b, session w' = setConnected b (session w)
  end.
Proof.
  intros Hstep. destruct e; simpl in Hstep; simpl.
  - destruct (mounted w); simplify_eq. exists (connected (session w)).
    simpl. by rewrite setConnected_same.
  - destruct (mounted w); simplify_eq. exists (connected (session w)).
    unfold cleanup. simpl. destruct (wsRef w); simpl; by rewrite setConnected_same.
  - destruct (sockets w !! ws) as [[] |]; simplify_eq. by exists true.
  - destruct (sockets w !! ws) as [[] |]; by simplify_eq.
  - destruct (sockets w !! ws) as [[] |]; simplify_eq; by exists false.
  - destruct (sockets w !! ws) as [[] |]; simplify_eq; by exists false.
  - destruct (timers w !! k) as [[[] ms] |]; simplify_eq.
    exists (connected (session w)). simpl. by rewrite setConnected_same.
Qed.

Lemma run_session es : ∀ w w',
  run es w = Some w' →
  session w' = setConnected (connected (session w'))
                 (process (messages_of es) (session w)).
Proof.
  induction es as [| e rest IH]; intros w w' Hrun; simpl in Hrun.
  - simplify_eq. by rewrite setConnected_same.
  - destruct (step e w) as [w1 |] eqn:He; [| done].
    rewrite (IH _ _ Hrun). cbn [connected setConnected].
    pose proof (step_session _ _ _ He) as Hs. unfold messages_of. simpl.
    destruct (message_of e) as [[now p] |].
    + by rewrite Hs.
    + destruct Hs as [b ->]. fold (messages_of rest).
      by rewrite process_setConnected.
Qed.

(** The data of the session is a function of the messages alone: after any
    sequence of mounts, unmounts, opens, errors, closes, timeouts and
    messages, the ledgers, overlays, directory and statistics are what the
    delivered messages, in their order, make of the initial session.  A
    reconnection neither resets nor replays anything; only the connection
    flag depends on the other events.  In particular the ledgers stay within
    their capacities and well formed along every run. *)
Theorem session_data_depends_on_the_messages_only es w :
  run es initial_world = Some w →
  session w = setConnected (connected (session w))
                (process (messages_of es) initial_session)
  ∧ bounded (session w)
  ∧ ledgers_well_formed (session w).
Proof.
  intros Hrun. pose proof (run_session _ _ _ Hrun) as Hs.
  split; [exact Hs |]. rewrite Hs. split.
  - apply (process_bounded (messages_of es) initial_session).
    unfold bounded. simpl. lia.
  - apply (process_well_formed (messages_of es) initial_session).
    unfold ledgers_well_formed. simpl.
    split_and!; intros ? Hin; by apply elem_of_nil in Hin.
Qed.

End Sessions.

(** ** More concrete runs *)

Lemma message_changes_only_its_cells_witness :
  case_label (type_of (Document (VObject call_100))) "PRINT" = false
  ∧ prints (deliver 1 (Document (VObject call_100)) initial_session) = []
  ∧ connected (deliver 1 (Document (VObject call_100)) initial_session) = false.
Proof.
  assert (Hty : case_label (type_of (Document (VObject call_100))) "PRINT" = false)
    by (vm_compute; reflexivity).
  destruct (message_changes_only_its_cells 1 (Document (VObject call_100)) initial_session)
    as (Hconn & Hprints & _).
  split; [exact Hty |]. split; [exact (Hprints Hty) | exact Hconn].
Defined.

Lemma unknown_message_is_ignored_witness :
  Forall (λ label, case_label (type_of (Document (VObject heartbeat))) label = false)
         message_types
  ∧ deliver 1 (Document (VObject heartbeat)) initial_session = initial_session
  ∧ onmessage 1 (Document (VObject heartbeat)) initial_session = Normal initial_session.
Proof.
  assert (Hnone : Forall (λ label,
            case_label (type_of (Document (VObject heartbeat))) label = false)
            message_types).
  { unfold message_types.
    repeat (apply List.Forall_cons; [vm_compute; reflexivity |]).
    apply List.Forall_nil. }
  destruct (unknown_message_is_ignored 1 (Document (VObject heartbeat)) initial_session Hnone)
    as (Hsame & Hnormal).
  split; [exact Hnone |]. split; [exact Hsame |].
  apply (Hnormal (VObject heartbeat)); [reflexivity | discriminate | discriminate].
Defined.




Lemma trading_stats_are_replaced_wholesale_witness :
  case_label (get (stats_n 1) "type") "TRADING_STATS" = true
  ∧ case_label (get (stats_n 2) "type") "TRADING_STATS" = true
  ∧ deliver 2 (Document (VObject (stats_n 2)))
      (deliver 1 (Document (VObject (stats_n 1))) initial_session)
    = deliver 2 (Document (VObject (stats_n 2))) initial_session.
Proof.
  assert (Hty1 : case_label (get (stats_n 1) "type") "TRADING_STATS" = true)
    by (vm_compute; reflexivity).
  assert (Hty2 : case_label (get (stats_n 2) "type") "TRADING_STATS" = true)
    by (vm_compute; reflexivity).
  destruct (trading_stats_are_replaced_wholesale 1 2 (stats_n 1) (stats_n 2)
              initial_session Hty1 Hty2) as (_ & Hlast & _).
  split; [exact Hty1 |]. split; [exact Hty2 | exact Hlast].
Defined.



Lemma quote_without_last_keeps_the_price_witness :
  case_label (get quote_100_no_last "type") "LIVE_QUOTE" = true
  ∧ is_nullish (get quote_100_no_last "last") = true
  ∧ trades session_with_call !! 0 = Some (enriched 1 call_100)
  ∧ is_nullish (get (enriched 1 call_100) "currentPrice") = false
  ∧ ∃ t', trades (deliver 2 (Document (VObject quote_100_no_last)) session_with_call) !! 0
            = Some t'
          ∧ get t' "currentPrice" = get (enriched 1 call_100) "currentPrice".
Proof.
  assert (Hty : case_label (get quote_100_no_last "type") "LIVE_QUOTE" = true)
    by (vm_compute; reflexivity).
  assert (Hlast : is_nullish (get quote_100_no_last "last") = true)
    by (vm_compute; reflexivity).
  assert (Hi : trades session_with_call !! 0 = Some (enriched 1 call_100))
    by reflexivity.
  assert (Hcur : is_nullish (get (enriched 1 call_100) "currentPrice") = false)
    by (vm_compute; reflexivity).
  destruct (quote_without_last_keeps_the_price 2 quote_100_no_last session_with_call
              0 (enriched 1 call_100) Hty Hlast Hi Hcur) as (t' & Hi' & Hsame & _).
  split_and!; try done. by exists t'.
Defined.

Lemma quotes_for_different_instruments_commute_witness :
  case_label (get quote_100 "type") "LIVE_QUOTE" = true
  ∧ case_label (get quote_200 "type") "LIVE_QUOTE" = true
  ∧ strict_equals (get quote_100 "conid") (get quote_200 "conid") = false
  ∧ trades (deliver 3 (Document (VObject quote_200))
              (deliver 2 (Document (VObject quote_100)) session_with_call))
    = trades (deliver 2 (Document (VObject quote_100))
                (deliver 3 (Document (VObject quote_200)) session_with_call)).
Proof.
  assert (Hty1 : case_label (get quote_100 "type") "LIVE_QUOTE" = true)
    by (vm_compute; reflexivity).
  assert (Hty2 : case_label (get quote_200 "type") "LIVE_QUOTE" = true)
    by (vm_compute; reflexivity).
  assert (Hdiff : strict_equals (get quote_100 "conid") (get quote_200 "conid") = false)
    by (vm_compute; reflexivity).
  destruct (quotes_for_different_instruments_commute 2 3 quote_100 quote_200
              session_with_call Hty1 Hty2 Hdiff) as (Htrades & _).
  split; [exact Hty1 |]. split; [exact Hty2 |]. split; [exact Hdiff | exact Htrades].
Defined.

Lemma wsRef_holds_the_newest_socket_witness :
  run [Mount; SocketOpen 0] initial_world = Some open_world
  ∧ wsRef open_world = Some 0.
Proof.
  assert (Hrun : run [Mount; SocketOpen 0] initial_world = Some open_world)
    by reflexivity.
  destruct (wsRef_holds_the_newest_socket _ _ Hrun) as (Hnewest & _).
  split; [exact Hrun | exact Hnewest].
Defined.

Lemma every_close_is_answered_once_witness :
  run [Mount; SocketOpen 0] initial_world = Some open_world
  ∧ length (sockets open_world) + length (timers open_world)
    = mounts [Mount; SocketOpen 0] + closed_count open_world.
Proof.
  assert (Hrun : run [Mount; SocketOpen 0] initial_world = Some open_world)
    by reflexivity.
  split; [exact Hrun | exact (every_close_is_answered_once _ _ Hrun)].
Defined.

Lemma one_handshake_per_opened_socket_witness :
  run [Mount; SocketOpen 0] initial_world = Some open_world
  ∧ sockets open_world !! 0 = Some OPEN
  ∧ length (frames_on 0 open_world) = 1.
Proof.
  assert (Hrun : run [Mount; SocketOpen 0] initial_world = Some open_world)
    by reflexivity.
  destruct (one_handshake_per_opened_socket _ _ Hrun) as (_ & _ & Hopen & _).
  split; [exact Hrun |]. split; [reflexivity | apply Hopen; reflexivity].
Defined.

Lemma session_data_depends_on_the_messages_only_witness :
  run [Mount; SocketOpen 0; SocketMessage 0 1 (Document (VObject call_100));
       SocketClose 0; TimerFires 0] initial_world
  = Some {| session := setConnected false session_with_call; mounted := true;
            sockets := [CLOSED; CONNECTING]; wsRef := Some 1; timers := [];
            sent := [(0, subscribe)] |}
  ∧ setConnected false session_with_call
    = setConnected false
        (process (messages_of [Mount; SocketOpen 0;
                               SocketMessage 0 1 (Document (VObject call_100));
                               SocketClose 0; TimerFires 0]) initial_session).
Proof.
  assert (Hrun :
    run [Mount; SocketOpen 0; SocketMessage 0 1 (Document (VObject call_100));
         SocketClose 0; TimerFires 0] initial_world
    = Some {| session := setConnected false session_with_call; mounted := true;
              sockets := [CLOSED; CONNECTING]; wsRef := Some 1; timers := [];
              sent := [(0, subscribe)] |}) by reflexivity.
  destruct (session_data_depends_on_the_messages_only _ _ Hrun) as (Hdata & _).
  split; [exact Hrun | exact Hdata].
Defined.

Lemma initial_filters_show_every_trade_witness :
  ToBoolean (VNumber (StringToNumber "abc")) = false
  ∧ filteredTrades (set_minPremium "abc" initial_filters) (session_of [numbered_trade])
    = Normal [numbered_trade]
  ∧ filteredTrades initial_filters (session_of [numbered_trade])
    = Normal [numbered_trade].
Proof.
  assert (Hoff : ToBoolean (VNumber (StringToNumber "abc")) = false)
    by (vm_compute; reflexivity).
  destruct (initial_filters_show_every_trade (session_of [numbered_trade]))
    as (Hall & _ & Hpremium).
  split; [exact Hoff |]. split; [exact (Hpremium "abc" Hoff) | exact Hall].
Defined.

Lemma shown_trades_are_those_that_meet_the_filters_witness :
  filteredTrades bto_only (session_of [call_100; spy_trade]) = Normal [spy_trade]
  ∧ sublist [spy_trade] [call_100; spy_trade]
  ∧ meets bto_only spy_trade.
Proof.
  assert (Hf : filteredTrades bto_only (session_of [call_100; spy_trade])
               = Normal [spy_trade]).
  { unfold filteredTrades. cbn [trades session_of filter_array].
    assert (H1 : shown bto_only call_100 = Normal false) by (vm_compute; reflexivity).
    assert (H2 : shown bto_only spy_trade = Normal true) by (vm_compute; reflexivity).
    rewrite H1, H2. reflexivity. }
  destruct (shown_trades_are_those_that_meet_the_filters _ _ _ Hf) as (Hsub & Hiff).
  split; [exact Hf |]. split; [exact Hsub |].
  apply (Hiff spy_trade). left.
Defined.

